(** * A verification development for [nn.py]

    The file embeds the module [nn.py] (sigmoid helpers and the class
    [SimpleNetwork]) and proves properties of its methods.

    Modelling choices, all visible in the definitions below:

    - A NumPy scalar is a [float64]: a real number or one of the three
      IEEE special values.  Arithmetic on finite values is exact real
      arithmetic; rounding, overflow and signed zeros are not modelled.
      The special values follow the IEEE rules NumPy applies (a division
      by zero yields an infinity or a NaN, it never raises).
    - An [ndarray] is a two-dimensional array: its shape and its rows.
    - Arrays that the network object or the caller hold a reference to
      live in a store and are addressed by location, so that the in-place
      update of [train] and any sharing between arguments are modelled;
      an array held by a local variable only is a plain value.
    - A Python exception is a [Raise] result. *)

From Stdlib Require Import Reals Lra Lia ZArith.
From stdpp Require Import base option list.

Set Default Proof Using "Type".
Open Scope R_scope.

(** ** Scalars *)

Inductive float64 : Type :=
| Fin (r : R)
| PInf
| NInf
| NaN.

#[global] Instance float64_inhabited : Inhabited float64 := populate (Fin 0).

Definition is_finite (x : float64) : Prop :=
  match x with Fin _ => True | _ => False end.

Definition is_nan (x : float64) : Prop :=
  match x with NaN => True | _ => False end.

(** The scalar lies strictly between 0 and 1. *)
Definition in_unit_interval (x : float64) : Prop :=
  match x with Fin r => 0 < r < 1 | _ => False end.

(** The operations below are exact on real numbers: the rounding of
    float64 and its overflow to an infinity are not modelled.  On the
    special values they follow IEEE 754. *)

Definition fneg (x : float64) : float64 :=
  match x with
  | Fin r => Fin (- r)
  | PInf => NInf
  | NInf => PInf
  | NaN => NaN
  end.

Definition fadd (x y : float64) : float64 :=
  match x, y with
  | NaN, _ | _, NaN => NaN
  | Fin a, Fin b => Fin (a + b)
  | PInf, NInf | NInf, PInf => NaN
  | PInf, _ | _, PInf => PInf
  | NInf, _ | _, NInf => NInf
  end.

Definition fsub (x y : float64) : float64 := fadd x (fneg y).

(** An infinity of sign [pos] multiplied by the finite [r]. *)
Definition inf_times (pos : bool) (r : R) : float64 :=
  if Req_dec_T r 0 then NaN
  else if Rlt_dec 0 r then (if pos then PInf else NInf)
  else (if pos then NInf else PInf).

Definition fmul (x y : float64) : float64 :=
  match x, y with
  | NaN, _ | _, NaN => NaN
  | Fin a, Fin b => Fin (a * b)
  | PInf, Fin b => inf_times true b
  | NInf, Fin b => inf_times false b
  | Fin a, PInf => inf_times true a
  | Fin a, NInf => inf_times false a
  | PInf, PInf | NInf, NInf => PInf
  | PInf, NInf | NInf, PInf => NInf
  end.

(** Division never raises: a zero divisor gives an infinity, or a NaN
    for [0 / 0]. *)
Definition fdiv (x y : float64) : float64 :=
  match x, y with
  | NaN, _ | _, NaN => NaN
  | Fin a, Fin b =>
      if Req_dec_T b 0 then
        (if Req_dec_T a 0 then NaN
         else if Rlt_dec 0 a then PInf else NInf)
      else Fin (a / b)
  | Fin _, PInf | Fin _, NInf => Fin 0
  | PInf, Fin b => if Rlt_dec b 0 then NInf else PInf
  | NInf, Fin b => if Rlt_dec b 0 then PInf else NInf
  | _, _ => NaN
  end.

(** [np.exp]; exact on real numbers, so that it is positive there, where
    the float64 result may be rounded to 0 or overflow to [+inf]. *)
Definition fexp (x : float64) : float64 :=
  match x with
  | Fin r => Fin (exp r)
  | PInf => PInf
  | NInf => Fin 0
  | NaN => NaN
  end.

(** [x < y]; every comparison with a NaN is false. *)
Definition flt (x y : float64) : bool :=
  match x, y with
  | NaN, _ | _, NaN => false
  | Fin a, Fin b => if Rlt_dec a b then true else false
  | NInf, NInf | PInf, _ => false
  | NInf, _ | Fin _, PInf => true
  | Fin _, NInf => false
  end.

(** ** Results and exceptions *)

Inductive exn : Type :=
| ValueError
| IndexError
| ZeroDivisionError
| DanglingReference.

Inductive Res (A : Type) : Type :=
| Ok (a : A)
| Raise (e : exn).
Arguments Ok {A} a.
Arguments Raise {A} e.

(** ** Arrays *)

Record ndarray (A : Type) : Type := mk_ndarray {
  nrows : nat;
  ncols : nat;
  rows : list (list A)
}.
Arguments mk_ndarray {A} nrows ncols rows.
Arguments nrows {A} _.
Arguments ncols {A} _.
Arguments rows {A} _.

Definition shape {A} (m : ndarray A) : nat * nat := (nrows m, ncols m).

(** The rows agree with the shape. *)
Definition well_shaped {A} (m : ndarray A) : Prop :=
  length (rows m) = nrows m /\
  Forall (fun r => length r = ncols m) (rows m).

(** [m[i, j]]; the inhabitant outside the shape. *)
Definition item {A} `{Inhabited A} (m : ndarray A) (i j : nat) : A :=
  default inhabitant (rows m !! i ≫= fun r => r !! j).

(** The array of shape [(r, c)] whose entry [(i, j)] is [f i j]. *)
Definition tabulate {A} (r c : nat) (f : nat -> nat -> A) : ndarray A :=
  mk_ndarray r c ((fun i => (fun j => f i j) <$> seq 0 c) <$> seq 0 r).

(** Every entry of the array satisfies [P]. *)
Definition all_items {A} `{Inhabited A} (P : A -> Prop) (m : ndarray A) : Prop :=
  forall i j, (i < nrows m)%nat -> (j < ncols m)%nat -> P (item m i j).

Definition transpose {A} `{Inhabited A} (m : ndarray A) : ndarray A :=
  tabulate (ncols m) (nrows m) (fun i j => item m j i).

Definition map_items {A B} `{Inhabited A} (f : A -> B) (m : ndarray A) : ndarray B :=
  tabulate (nrows m) (ncols m) (fun i j => f (item m i j)).

(** *** NumPy broadcasting of two dimensions *)

Definition broadcast_dim (d1 d2 : nat) : option nat :=
  if (d1 =? d2)%nat then Some d1
  else if (d1 =? 1)%nat then Some d2
  else if (d2 =? 1)%nat then Some d1
  else None.

Definition broadcast_shape (s1 s2 : nat * nat) : option (nat * nat) :=
  match broadcast_dim s1.1 s2.1, broadcast_dim s1.2 s2.2 with
  | Some r, Some c => Some (r, c)
  | _, _ => None
  end.

(** The index read along a dimension of extent [d]: an extent of 1 is
    stretched. *)
Definition bidx (d i : nat) : nat := if (d =? 1)%nat then 0%nat else i.

Definition broadcast_item {A} `{Inhabited A} (m : ndarray A) (i j : nat) : A :=
  item m (bidx (nrows m) i) (bidx (ncols m) j).

(** An element-wise binary operation with broadcasting. *)
Definition elementwise {A} `{Inhabited A} (f : A -> A -> A) (a b : ndarray A)
  : Res (ndarray A) :=
  match broadcast_shape (shape a) (shape b) with
  | Some (r, c) =>
      Ok (tabulate r c (fun i j => f (broadcast_item a i j) (broadcast_item b i j)))
  | None => Raise ValueError
  end.

Definition np_subtract := elementwise fsub.
Definition np_multiply := elementwise fmul.

(** [sum_{k < n} f k], accumulated from 0 as [np.dot] does. *)
Definition fsum (n : nat) (f : nat -> float64) : float64 :=
  foldl (fun acc k => fadd acc (f k)) (Fin 0) (seq 0 n).

(** [np.dot] of two-dimensional arrays. *)
Definition np_dot (a b : ndarray float64) : Res (ndarray float64) :=
  if (ncols a =? nrows b)%nat then
    Ok (tabulate (nrows a) (ncols b)
          (fun i j => fsum (ncols a) (fun k => fmul (item a i k) (item b k j))))
  else Raise ValueError.

(** [a -= b]: the broadcast shape has to be the shape of [a]. *)
Definition np_isub (a b : ndarray float64) : Res (ndarray float64) :=
  match broadcast_shape (shape a) (shape b) with
  | Some s =>
      if decide (s = shape a) then
        Ok (tabulate (nrows a) (ncols a)
              (fun i j => fsub (item a i j) (broadcast_item b i j)))
      else Raise ValueError
  | None => Raise ValueError
  end.

(** [np.where(m < t, x, y)] for scalars [t], [x], [y]. *)
Definition np_where_lt {B} (m : ndarray float64) (t : float64) (x y : B) : ndarray B :=
  map_items (fun v => if flt v t then x else y) m.

(** ** The module-level functions *)

(** [sig_func(val) = 1 / (1 + np.exp(-val))] *)
Definition sig_func (val : ndarray float64) : ndarray float64 :=
  map_items (fdiv (Fin 1))
    (map_items (fadd (Fin 1))
       (map_items fexp
          (map_items fneg val))).

(** [sig_func_g(val) = sig_func(val) * (1 - sig_func(val))] *)
Definition sig_func_g (val : ndarray float64) : Res (ndarray float64) :=
  np_multiply (sig_func val) (map_items (fsub (Fin 1)) (sig_func val)).

(** ** The store and the network object *)

(** A reference to an array of the store. *)
Abbreviation loc := nat.

Abbreviation store := (list (ndarray float64)).

(** The instance attributes [self.weights] and [self.activations]: both
    hold references. *)
Record SimpleNetwork : Type := mk_network {
  weights : list loc;
  activations : list loc
}.

Record state : Type := mk_state {
  self : SimpleNetwork;
  heap : store
}.

(** A method body: it reads and updates the state, and returns or raises. *)
Definition M (A : Type) : Type := state -> Res (A * state).

Definition ret {A} (a : A) : M A := fun s => Ok (a, s).

Definition bind {A B} (m : M A) (k : A -> M B) : M B :=
  fun s =>
    match m s with
    | Ok (a, s') => k a s'
    | Raise e => Raise e
    end.

Definition lift {A} (r : Res A) : M A :=
  fun s =>
    match r with
    | Ok a => Ok (a, s)
    | Raise e => Raise e
    end.

Declare Scope py_scope.
Delimit Scope py_scope with py.
Notation "x <- m ;; k" := (bind m (fun x => k))
  (at level 100, m at next level, right associativity) : py_scope.
Notation "m ;; k" := (bind m (fun _ => k))
  (at level 100, right associativity) : py_scope.
Open Scope py_scope.

(** No Python program holds a reference to an array that does not exist;
    a location outside the store is reported as [DanglingReference]. *)
Definition deref (l : loc) : M (ndarray float64) :=
  fun s =>
    match heap s !! l with
    | Some m => Ok (m, s)
    | None => Raise DanglingReference
    end.

(** A new array object. *)
Definition alloc (m : ndarray float64) : M loc :=
  fun s => Ok (length (heap s), mk_state (self s) (heap s ++ [m])).

(** Overwrite the contents of an existing array object. *)
Definition assign (l : loc) (m : ndarray float64) : M unit :=
  fun s =>
    match heap s !! l with
    | Some _ => Ok (tt, mk_state (self s) (<[l := m]> (heap s)))
    | None => Raise DanglingReference
    end.

Definition get_weights : M (list loc) := fun s => Ok (weights (self s), s).

Definition get_activations : M (list loc) := fun s => Ok (activations (self s), s).

Definition set_activations (acts : list loc) : M unit :=
  fun s => Ok (tt, mk_state (mk_network (weights (self s)) acts) (heap s)).

(** [for x in l: body x] *)
Fixpoint for_each {A} (l : list A) (body : A -> M unit) : M unit :=
  match l with
  | [] => ret tt
  | x :: l' => body x ;; for_each l' body
  end.

(** [l[i]] with Python's negative indices. *)
Definition py_index {A} (l : list A) (i : Z) : Res A :=
  let n := Z.of_nat (length l) in
  let k := if (i <? 0)%Z then (i + n)%Z else i in
  if (k <? 0)%Z then Raise IndexError
  else
    match l !! Z.to_nat k with
    | Some x => Ok x
    | None => Raise IndexError
    end.

(** [range(lo, hi)] *)
Definition py_range (lo hi : Z) : list Z :=
  (fun k => (lo + Z.of_nat k)%Z) <$> seq 0 (Z.to_nat (hi - lo)).

(** ** The class [SimpleNetwork] *)

(** [__init__(self, *layer_weights)] *)
Definition init (layer_weights : list loc) : SimpleNetwork :=
  mk_network layer_weights [].

(** The body of [for weight in self.weights] in [predict]. *)
Definition predict_step (weight : loc) : M unit :=
  acts <- get_activations ;;
  last <- lift (py_index acts (-1)) ;;
  h <- deref last ;;
  w <- deref weight ;;
  a <- lift (np_dot h w) ;;
  l <- alloc (sig_func a) ;;
  set_activations (acts ++ [l]).

(** [predict(self, input_matrix)] *)
Definition predict (input_matrix : loc) : M loc :=
  set_activations [input_matrix] ;;
  ws <- get_weights ;;
  for_each ws predict_step ;;
  acts <- get_activations ;;
  lift (py_index acts (-1)).

(** [predict_zero_one(self, input_matrix)]: the result is a new array of
    integers. *)
Definition predict_zero_one (input_matrix : loc) : M (ndarray Z) :=
  p <- predict input_matrix ;;
  v <- deref p ;;
  ret (np_where_lt v (Fin (1 / 2)) 0%Z 1%Z).

(** The body of [while layer >= 1] in [gradients], for the current values
    of [layer], [g_last] and [grad]. *)
Definition back_propagate_step (layer : Z)
    (g_last : ndarray float64) (grad : list (ndarray float64))
  : M (ndarray float64 * list (ndarray float64)) :=
  ws <- get_weights ;;
  acts <- get_activations ;;
  wl <- lift (py_index ws layer) ;;
  w <- deref wl ;;
  d <- lift (np_dot w g_last) ;;
  let error_l := transpose d in
  hl <- lift (py_index acts (layer - 1)) ;;
  h <- deref hl ;;
  wl' <- lift (py_index ws (layer - 1)) ;;
  w' <- deref wl' ;;
  a_last <- lift (np_dot h w') ;;
  sg <- lift (sig_func_g a_last) ;;
  m <- lift (np_multiply error_l sg) ;;
  let g_last := transpose m in
  hl' <- lift (py_index acts (layer - 1)) ;;
  h' <- deref hl' ;;
  d' <- lift (np_dot g_last h') ;;
  ret (g_last, transpose d' :: grad).

(** The loop [while layer >= 1: ...; layer -= 1], by recursion on the
    number [k] of remaining iterations: [layer] is [k] throughout. *)
Fixpoint back_propagate (k : nat)
    (g_last : ndarray float64) (grad : list (ndarray float64))
  : M (ndarray float64 * list (ndarray float64)) :=
  match k with
  | O => ret (g_last, grad)
  | S k' =>
      r <- back_propagate_step (Z.of_nat k) g_last grad ;;
      back_propagate k' r.1 r.2
  end.

(** [x / n] for an array [x] and an integer [n]. *)
Definition divide_by (n : nat) (x : ndarray float64) : ndarray float64 :=
  map_items (fun v => fdiv v (Fin (INR n))) x.

(** [c * x] for a scalar [c] and an array [x]. *)
Definition scale (c : float64) (x : ndarray float64) : ndarray float64 :=
  map_items (fun v => fmul c v) x.

(** [gradients(self, input_matrix, output_matrix)]: the gradients are new
    arrays. *)
Definition gradients (input_matrix output_matrix : loc)
  : M (list (ndarray float64)) :=
  ws <- get_weights ;;
  let layer := (Z.of_nat (length ws) - 1)%Z in
  h_lastest <- predict input_matrix ;;
  h <- deref h_lastest ;;
  y <- deref output_matrix ;;
  error_lastest <- lift (np_subtract h y) ;;
  acts <- get_activations ;;
  hl <- lift (py_index acts layer) ;;
  hv <- deref hl ;;
  wl <- lift (py_index ws layer) ;;
  w <- deref wl ;;
  a_lastest <- lift (np_dot hv w) ;;
  sg <- lift (sig_func_g a_lastest) ;;
  m <- lift (np_multiply error_lastest sg) ;;
  let g_lastest := transpose m in
  let g_last := g_lastest in
  hl' <- lift (py_index acts layer) ;;
  hv' <- deref hl' ;;
  d <- lift (np_dot g_last hv') ;;
  let grad := [transpose d] in
  r <- back_propagate (Z.to_nat layer) g_last grad ;;
  let grad := r.2 in
  x <- deref input_matrix ;;
  let n_input := nrows x in
  ret (divide_by n_input <$> grad).

(** The default values of the keyword arguments of [train]. *)
Definition default_iterations : Z := 10.
Definition default_learning_rate : float64 := Fin (1 / 10).

(** The body of [for grad, weight in zip(gradients, self.weights)]. *)
Definition update_weight (learning_rate : float64)
    (gw : ndarray float64 * loc) : M unit :=
  w <- deref gw.2 ;;
  w' <- lift (np_isub w (scale learning_rate gw.1)) ;;
  assign gw.2 w'.

(** One pass of the body of [for _ in range(0, iterations)]. *)
Definition train_iteration (input_matrix output_matrix : loc)
    (learning_rate : float64) : M unit :=
  gs <- gradients input_matrix output_matrix ;;
  ws <- get_weights ;;
  for_each (zip gs ws) (update_weight learning_rate).

(** [train(self, input_matrix, output_matrix, iterations=10,
    learning_rate=0.1)]; [None] is an argument left out by the caller. *)
Definition train (input_matrix output_matrix : loc)
    (iterations : option Z) (learning_rate : option float64) : M unit :=
  let iterations := default default_iterations iterations in
  let learning_rate := default default_learning_rate learning_rate in
  for_each (py_range 0 iterations) (fun _ =>
    train_iteration input_matrix output_matrix learning_rate).

(** ** Random construction *)

Section Random.

(** The generator behind [np.random]: its state, and one draw from
    [[0, 1)]. *)
Variable rng : Type.
Variable random_sample : rng -> R * rng.

Fixpoint random_samples (n : nat) (g : rng) : list R * rng :=
  match n with
  | O => ([], g)
  | S n' =>
      let (u, g1) := random_sample g in
      let (us, g2) := random_samples n' g1 in
      (u :: us, g2)
  end.

(** [np.random.uniform(low, high, size=(n_in, n_out))] *)
Definition np_random_uniform (low high : R) (n_in n_out : Z) (g : rng)
  : Res (ndarray float64 * rng) :=
  if ((n_in <? 0) || (n_out <? 0))%Z then Raise ValueError
  else
    let r := Z.to_nat n_in in
    let c := Z.to_nat n_out in
    let (us, g') := random_samples (r * c) g in
    Ok (tabulate r c
          (fun i j => Fin (low + (high - low) * nth (i * c + j)%nat us 0)),
        g').

(** The local function [uniform] of [random]: [math.sqrt] raises on a
    negative argument, and the float division raises on a zero
    divisor. *)
Definition uniform (n_in n_out : Z) (g : rng) : Res (ndarray float64 * rng) :=
  if (n_in + n_out <? 0)%Z then Raise ValueError
  else if (n_in + n_out =? 0)%Z then Raise ZeroDivisionError
  else
    let epsilon := sqrt 6 / sqrt (IZR (n_in + n_out)) in
    np_random_uniform (- epsilon) epsilon n_in n_out g.

(** [[uniform(i, o) for i, o in pairs]]: each new array goes to the
    store. *)
Fixpoint uniform_all (pairs : list (Z * Z)) (g : rng) (h : store)
  : Res (list loc * store * rng) :=
  match pairs with
  | [] => Ok ([], h, g)
  | (i, o) :: pairs' =>
      match uniform i o g with
      | Raise e => Raise e
      | Ok (w, g1) =>
          match uniform_all pairs' g1 (h ++ [w]) with
          | Raise e => Raise e
          | Ok (ls, h2, g2) => Ok (length h :: ls, h2, g2)
          end
      end
  end.

(** [random(cls, *layer_units)] *)
Definition random (layer_units : list Z) (g : rng) (h : store)
  : Res (state * rng) :=
  let pairs := zip layer_units (drop 1 layer_units) in
  match uniform_all pairs g h with
  | Raise e => Raise e
  | Ok (ls, h', g') => Ok (mk_state (init ls) h', g')
  end.

End Random.

(** ** The procedure of the specification

    The definitions of this section follow the text of the specification,
    not the code: matrices are mathematical values, [×] is the matrix
    product, [⊙] the element-wise product, and layers are addressed by
    their number. *)

Module Spec.

Abbreviation matrix := (ndarray float64).

#[global] Instance matrix_inhabited : Inhabited matrix :=
  populate (mk_ndarray 0 0 []).

(** [a × b] *)
Definition matmul (a b : matrix) : matrix :=
  tabulate (nrows a) (ncols b)
    (fun i j => fsum (ncols a) (fun k => fmul (item a i k) (item b k j))).

(** An element-wise combination of two matrices of one shape. *)
Definition pointwise (f : float64 -> float64 -> float64) (a b : matrix) : matrix :=
  tabulate (nrows a) (ncols a) (fun i j => f (item a i j) (item b i j)).

(** [a − b] and [a ⊙ b] *)
Definition minus := pointwise fsub.
Definition hadamard := pointwise fmul.

(** [sigmoid(x) = 1 / (1 + exp(-x))], and its derivative
    [s(x)(1 - s(x))]. *)
Definition sigmoid (x : float64) : float64 :=
  fdiv (Fin 1) (fadd (Fin 1) (fexp (fneg x))).

Definition sigmoid' (x : float64) : float64 :=
  fmul (sigmoid x) (fsub (Fin 1) (sigmoid x)).

(** [a / N] *)
Definition divide (a : matrix) (N : nat) : matrix :=
  map_items (fun v => fdiv v (Fin (INR N))) a.

Section Network.

(** The weight matrices [w_0 .. w_{L-1}], the input and the target. *)
Variable ws : list matrix.
Variable X y : matrix.

Let L := length ws.
Let N := nrows X.

(** [h_0 = X], [h_{l+1} = sigmoid(h_l × w_l)] *)
Fixpoint h (l : nat) : matrix :=
  match l with
  | O => X
  | S l' => map_items sigmoid (matmul (h l') (ws !!! l'))
  end.

(** [a_l = h_{l-1} × w_{l-1}] *)
Definition a (l : nat) : matrix := matmul (h (l - 1)) (ws !!! (l - 1)%nat).

(** [error_L = h_L − y] *)
Definition error_L : matrix := minus (h L) y.

(** [g_{L-d}], for [d = 0 .. L-1]:
    [g_L = (error_L ⊙ sigmoid'(a_L))ᵗ], and for [l < L],
    [error_l = (w_l × g_{l+1})ᵗ] and [g_l = (error_l ⊙ sigmoid'(a_l))ᵗ]. *)
Fixpoint g_down (d : nat) : matrix :=
  match d with
  | O => transpose (hadamard error_L (map_items sigmoid' (a L)))
  | S d' =>
      let l := (L - d)%nat in
      let error_l := transpose (matmul (ws !!! l) (g_down d')) in
      transpose (hadamard error_l (map_items sigmoid' (a l)))
  end.

Definition g (l : nat) : matrix := g_down (L - l).

(** [grad_{l-1} = (g_l × h_{l-1})ᵗ / N], here for [l - 1]. *)
Definition grad (l : nat) : matrix :=
  divide (transpose (matmul (g (l + 1)) (h l))) N.

(** The ordered list of the gradients, one per weight matrix. *)
Definition gradients : list matrix := grad <$> seq 0 L.

(** The result of the forward pass. *)
Definition predict : matrix := h L.

End Network.

End Spec.

(** * Notions of the statements *)

(** The arrays of a list of references. *)
Definition points_to (hp : store) (ls : list loc) (vs : list (ndarray float64)) : Prop :=
  Forall2 (fun l v => hp !! l = Some v) ls vs.

(** The activations [predict] computes past [hv] for the weights [wvs], on
    values. *)
Fixpoint forward (hv : ndarray float64) (wvs : list (ndarray float64))
  : Res (list (ndarray float64)) :=
  match wvs with
  | [] => Ok []
  | w :: wvs' =>
      match np_dot hv w with
      | Raise e => Raise e
      | Ok a =>
          match forward (sig_func a) wvs' with
          | Raise e => Raise e
          | Ok hs => Ok (sig_func a :: hs)
          end
      end
  end.

(** The state [predict] leaves: the cache holds the input and the new
    activations [hs], which are appended to the store. *)
Definition after_predict (s : state) (input_matrix : loc)
    (hs : list (ndarray float64)) : state :=
  mk_state
    (mk_network (weights (self s))
       (input_matrix :: seq (length (heap s)) (length hs)))
    (heap s ++ hs).

(** The reference [predict] returns, and the array it refers to. *)
Definition output_loc (s : state) (input_matrix : loc)
    (hs : list (ndarray float64)) : loc :=
  default input_matrix (last (seq (length (heap s)) (length hs))).

Definition output_of (x : ndarray float64) (hs : list (ndarray float64))
  : ndarray float64 :=
  default x (last hs).

(** The weight matrices chain: the first one has [c] rows, and each next
    one as many rows as its predecessor has columns. *)
Fixpoint compatible (c : nat) (ws : list (ndarray float64)) : Prop :=
  match ws with
  | [] => True
  | w :: ws' => c = nrows w /\ compatible (ncols w) ws'
  end.

(** The number of units of the last layer. *)
Definition output_units (c : nat) (ws : list (ndarray float64)) : nat :=
  default c (ncols <$> last ws).

Definition real_valued (m : ndarray float64) : Prop := all_items is_finite m.

(** [(g_{l+1} × h_l)ᵗ], the gradient before its division by [N]. *)
Definition raw_grad (ws : list (ndarray float64)) (x y : ndarray float64)
    (l : nat) : ndarray float64 :=
  transpose (Spec.matmul (Spec.g ws x y (l + 1)) (Spec.h ws x l)).

(** A state in which the weights are [ws] and the cache holds the
    activations of [x]. *)
Definition cached (ws : list (ndarray float64)) (x : ndarray float64)
    (s : state) : Prop :=
  points_to (heap s) (weights (self s)) ws /\
  points_to (heap s) (activations (self s))
    (x :: (Spec.h ws x <$> seq 1 (length ws))).

(** [weight_l ← weight_l − learning_rate × grad_l]: the array at the
    location [l] of the store is overwritten. *)
Definition descend_one (learning_rate : float64) (grad : ndarray float64)
    (l : loc) (hp : store) : store :=
  alter (fun w => Spec.minus w (scale learning_rate grad)) l hp.

(** The update of every weight matrix, layer after layer. *)
Definition descend (learning_rate : float64) (grads : list (ndarray float64))
    (wls : list loc) (hp : store) : store :=
  foldl (fun hp k => descend_one learning_rate (grads !!! k) (wls !!! k) hp)
    hp (seq 0 (length wls)).

(** One repetition of the training of the specification: compute the
    gradients for the current weights (which leaves the activations in
    the cache), then update every weight matrix in place. *)
Definition training_step (input_matrix output_matrix : loc)
    (learning_rate : float64) (s : state) : state :=
  let ws := (fun l => heap s !!! l) <$> weights (self s) in
  let x := heap s !!! input_matrix in
  let y := heap s !!! output_matrix in
  let cache := Spec.h ws x <$> seq 1 (length ws) in
  let s1 := after_predict s input_matrix cache in
  mk_state (self s1)
    (descend learning_rate (Spec.gradients ws x y) (weights (self s)) (heap s1)).

(** The network and its training batch are in the store, with shapes
    that fit: the weights chain from the input, and the target has the
    shape of the output. *)
Definition ready (input_matrix output_matrix : loc) (s : state) : Prop :=
  exists x y ws,
    heap s !! input_matrix = Some x /\
    heap s !! output_matrix = Some y /\
    points_to (heap s) (weights (self s)) ws /\
    compatible (ncols x) ws /\
    shape y = (nrows x, output_units (ncols x) ws) /\
    (1 <= length ws)%nat.

(** Each gradient has the shape of the array its weight refers to. *)
Definition fits (hp : store) (gw : ndarray float64 * loc) : Prop :=
  exists m, hp !! gw.2 = Some m /\ shape m = shape gw.1.

Definition extends (hp hp' : store) : Prop :=
  forall l m, hp !! l = Some m ->
    exists m', hp' !! l = Some m' /\ shape m' = shape m.

Definition same_shapes (ws ws' : list (ndarray float64)) : Prop :=
  Forall2 (fun w w' => shape w' = shape w) ws ws'.

Definition preserves {A} (m : M A) : Prop :=
  forall s a s', m s = Ok (a, s') ->
    weights (self s') = weights (self s) /\ extends (heap s) (heap s').

(** The weight matrices a state holds, and the gradients for them. *)
Definition weights_of (s : state) : list (ndarray float64) :=
  (fun l => heap s !!! l) <$> weights (self s).

Definition gradients_of (input_matrix output_matrix : loc) (s : state)
  : list (ndarray float64) :=
  Spec.gradients (weights_of s) (heap s !!! input_matrix) (heap s !!! output_matrix).

#[global] Instance int_inhabited : Inhabited Z := populate 0%Z.

(** ** Concrete networks *)

Module Examples.

Definition scalar (r : R) : ndarray float64 := mk_ndarray 1 1 [[Fin r]].

(** A network of two layers of one unit, its weight 1, with the batch
    of the single input 0 and the target 1. *)
Definition w1 : ndarray float64 := scalar 1.
Definition x1 : ndarray float64 := scalar 0.
Definition y1 : ndarray float64 := scalar 1.
Definition net1 : state := mk_state (init [0%nat]) [w1; x1; y1].

(** The same network with an empty batch. *)
Definition x0 : ndarray float64 := mk_ndarray 0 1 [].
Definition y0 : ndarray float64 := mk_ndarray 0 1 [].
Definition net1_empty : state := mk_state (init [0%nat]) [w1; x0; y0].

(** A network without weight matrices, and the input 2. *)
Definition x2 : ndarray float64 := scalar 2.
Definition net0 : state := mk_state (init []) [x2].

(** A generator that always draws 0. *)
Definition zeros (g : unit) : R * unit := (0, g).

End Examples.

(** ** Ranges and comparisons of scalars *)

(** [x >= y]; every comparison with a NaN is false. *)
Definition fge (x y : float64) : bool :=
  match x, y with
  | NaN, _ | _, NaN => false
  | _, _ => negb (flt x y)
  end.

(** The scalar lies in the closed interval [[0, 1]]. *)
Definition in_closed_unit_interval (x : float64) : Prop :=
  match x with Fin r => 0 <= r <= 1 | _ => False end.

(** The scalar is a NaN or lies in the closed interval [[0, 1]]. *)
Definition unit_or_nan (x : float64) : Prop :=
  match x with Fin r => 0 <= r <= 1 | NaN => True | _ => False end.

(** ** Networks on inputs that are not real numbers *)

Module SaturationExamples.

(** The network of [Examples.net1] with the input [+inf], and with a NaN
    as input. *)
Definition x_inf : ndarray float64 := mk_ndarray 1 1 [[PInf]].
Definition net1_inf : state := mk_state (init [0%nat]) [Examples.w1; x_inf].

Definition x_nan : ndarray float64 := mk_ndarray 1 1 [[NaN]].
Definition net1_nan : state := mk_state (init [0%nat]) [Examples.w1; x_nan].

End SaturationExamples.

(** * Notions of the further properties *)

(** A method body that, when it returns, has left [self.weights] and
    every array of the store as they were: it has only added arrays. *)
Definition allocates_only {A} (m : M A) : Prop :=
  forall s a s', m s = Ok (a, s') ->
    weights (self s') = weights (self s) /\
    exists hs, heap s' = heap s ++ hs.

(** A method body that, when it returns, has left the state as it was. *)
Definition reads_only {A} (m : M A) : Prop :=
  forall s a s', m s = Ok (a, s') -> s' = s.

(** A method body that, when it returns, has left [self.weights] as it
    was, and has left every array that [self.weights] does not refer
    to as it was. *)
Definition updates_weights_only {A} (m : M A) : Prop :=
  forall s a s', m s = Ok (a, s') ->
    weights (self s') = weights (self s) /\
    forall l v, l ∉ weights (self s) -> heap s !! l = Some v ->
      heap s' !! l = Some v.

(** The exception [gradients] raises on a network without weight
    matrices: the subtraction of the target comes before the indexing
    of the empty [self.weights]. *)
Definition error_without_weights (x y : ndarray float64) : exn :=
  match broadcast_shape (shape x) (shape y) with
  | Some _ => IndexError
  | None => ValueError
  end.

(** The entry of [sig_func] for the entry [v]: in the closed unit
    interval for a real number. *)
Definition sig_func_entry (v t : float64) : Prop :=
  match v with
  | Fin _ => in_closed_unit_interval t
  | PInf => t = Fin 1
  | NInf => t = Fin 0
  | NaN => t = NaN
  end.

(** The entry of [sig_func_g] for the entry [v]: a NaN for a NaN, and
    otherwise a real number of [[0, 1/4]]. *)
Definition sig_func_g_entry (v t : float64) : Prop :=
  match v with
  | NaN => t = NaN
  | _ => match t with Fin r => 0 <= r <= 1 / 4 | _ => False end
  end.

(** The scalar lies in [[-e, e)]. *)
Definition within (e : R) (x : float64) : Prop :=
  match x with Fin r => - e <= r < e | _ => False end.

(** The bound of the uniform initialisation between layers of [n_in]
    and [n_out] units. *)
Definition epsilon (n_in n_out : Z) : R := sqrt 6 / sqrt (IZR (n_in + n_out)).

(** The weight matrices have the shapes and the entries that [random]
    gives them for the layer sizes [n :: layer_units]. *)
Fixpoint initialised (n : Z) (layer_units : list Z) (ws : list (ndarray float64))
  : Prop :=
  match layer_units, ws with
  | [], [] => True
  | n' :: layer_units', w :: ws' =>
      shape w = (Z.to_nat n, Z.to_nat n') /\
      all_items (within (epsilon n n')) w /\
      initialised n' layer_units' ws'
  | _, _ => False
  end.

(** ** More concrete networks *)

Module MoreExamples.

(** An input of two columns, which the weight of [Examples.net1] does not
    accept. *)
Definition x_wide : ndarray float64 := mk_ndarray 1 2 [[Fin 0; Fin 0]].
Definition net1_wide : state :=
  mk_state (init [0%nat]) [Examples.w1; x_wide; Examples.y1].

(** A target of two columns for the single output unit of
    [Examples.net1]. *)
Definition y_wide : ndarray float64 := mk_ndarray 1 2 [[Fin 1; Fin 0]].
Definition net1_target_wide : state :=
  mk_state (init [0%nat]) [Examples.w1; Examples.x1; y_wide].

(** A batch of two inputs with a target of three rows. *)
Definition x_two : ndarray float64 := mk_ndarray 2 1 [[Fin 0]; [Fin 1]].
Definition y_three : ndarray float64 := mk_ndarray 3 1 [[Fin 0]; [Fin 1]; [Fin 0]].
Definition net1_target_tall : state :=
  mk_state (init [0%nat]) [Examples.w1; x_two; y_three].

(** A store that holds a batch and no network yet. *)
Definition batch_only : store := [Examples.x1].

End MoreExamples.

(** The entry of [predict_zero_one] for an entry of [predict] that is
    not a real number. *)
Definition zero_one_special (v : float64) (z : Z) : Prop :=
  match v with
  | NaN | PInf => z = 1%Z
  | NInf => z = 0%Z
  | Fin _ => True
  end.

Module SpecialExamples.

(** A network without weight matrices whose input is a NaN. *)
Definition x_nan : ndarray float64 := mk_ndarray 1 1 [[NaN]].
Definition net0_nan : state := mk_state (init []) [x_nan].

End SpecialExamples.

(** The generator draws from [[0, 1)], as [np.random] does. *)
Definition draws_unit {rng : Type} (random_sample : rng -> R * rng) : Prop :=
  forall g, 0 <= (random_sample g).1 < 1.

(** The exception [random] raises for the first two layer sizes [a] and
    [b] when they do not both count units. *)
Definition first_pair_error (a b : Z) : exn :=
  if (a + b =? 0)%Z then ZeroDivisionError else ValueError.

Module SharedExamples.

(** A network of three layers of one unit whose two weight matrices are
    one and the same array. *)
Definition net_shared : state :=
  mk_state (init [0%nat; 0%nat]) [Examples.w1; Examples.x1; Examples.y1].

End SharedExamples.

(** * Properties *)

Arguments fadd : simpl never.
Arguments fsub : simpl never.
Arguments fmul : simpl never.
Arguments fdiv : simpl never.
Arguments fneg : simpl never.
Arguments fexp : simpl never.
Arguments flt : simpl never.

(** ** Arrays *)

Section ArrayLemmas.

Context {A : Type} `{Inhabited A}.

Lemma item_tabulate (r c : nat) (f : nat -> nat -> A) (i j : nat) :
  (i < r)%nat -> (j < c)%nat -> item (tabulate r c f) i j = f i j.
Proof.
  intros Hi Hj. unfold item, tabulate. simpl.
  rewrite list_lookup_fmap, lookup_seq_lt by done. simpl.
  rewrite list_lookup_fmap, lookup_seq_lt by done. done.
Qed.

Lemma tabulate_ext (r c : nat) (f f' : nat -> nat -> A) :
  (forall i j, (i < r)%nat -> (j < c)%nat -> f i j = f' i j) ->
  tabulate r c f = tabulate r c f'.
Proof.
  intros Hf. unfold tabulate. f_equal.
  apply list_eq. intros i. rewrite !list_lookup_fmap.
  destruct (seq 0 r !! i) as [i'|] eqn:Hi; [|done]. simpl. f_equal.
  apply lookup_seq in Hi as [-> Hi].
  apply list_eq. intros j. rewrite !list_lookup_fmap.
  destruct (seq 0 c !! j) as [j'|] eqn:Hj; [|done]. simpl. f_equal.
  apply lookup_seq in Hj as [-> Hj]. by apply Hf.
Qed.

Lemma tabulate_well_shaped (r c : nat) (f : nat -> nat -> A) :
  well_shaped (tabulate r c f).
Proof.
  split; simpl.
  - by rewrite length_fmap, length_seq.
  - apply Forall_fmap, Forall_forall. intros i _. simpl.
    by rewrite length_fmap, length_seq.
Qed.

(** A well-shaped array is the table of its items. *)
Lemma tabulate_item (m : ndarray A) :
  well_shaped m -> tabulate (nrows m) (ncols m) (item m) = m.
Proof.
  destruct m as [r c l]. intros [Hr Hc]. simpl in *. unfold tabulate. f_equal.
  apply list_eq. intros i. rewrite list_lookup_fmap.
  destruct (decide (i < r)%nat) as [Hi|Hi].
  - rewrite lookup_seq_lt by done. simpl.
    destruct (l !! i) as [row|] eqn:Hrow.
    2:{ apply lookup_ge_None in Hrow. lia. }
    f_equal. apply list_eq. intros j. rewrite list_lookup_fmap.
    assert (length row = c) as Hlen.
    { rewrite Forall_forall in Hc. apply Hc. by eapply list_elem_of_lookup_2. }
    destruct (decide (j < c)%nat) as [Hj|Hj].
    + rewrite lookup_seq_lt by done. simpl. unfold item. simpl. rewrite Hrow. simpl.
      destruct (row !! j) eqn:Hx; [done|]. apply lookup_ge_None in Hx. lia.
    + rewrite lookup_seq_ge by lia. simpl. symmetry. apply lookup_ge_None. lia.
  - rewrite lookup_seq_ge by lia. simpl. symmetry. apply lookup_ge_None. lia.
Qed.

Lemma all_items_tabulate (P : A -> Prop) (r c : nat) (f : nat -> nat -> A) :
  (forall i j, (i < r)%nat -> (j < c)%nat -> P (f i j)) ->
  all_items P (tabulate r c f).
Proof. intros Hf i j Hi Hj. simpl in *. rewrite item_tabulate by done. auto. Qed.

End ArrayLemmas.

Lemma item_map_items {A B} `{Inhabited A} `{Inhabited B}
    (f : A -> B) (m : ndarray A) (i j : nat) :
  (i < nrows m)%nat -> (j < ncols m)%nat ->
  item (map_items f m) i j = f (item m i j).
Proof. intros. unfold map_items. by rewrite item_tabulate. Qed.


Lemma map_items_ext {A B} `{Inhabited A} (f f' : A -> B) (m : ndarray A) :
  (forall x, f x = f' x) -> map_items f m = map_items f' m.
Proof. intros Hf. apply tabulate_ext. intros. apply Hf. Qed.

Lemma map_items_compose {A B C} `{Inhabited A} `{Inhabited B}
    (f : A -> B) (f' : B -> C) (m : ndarray A) :
  map_items f' (map_items f m) = map_items (fun x => f' (f x)) m.
Proof.
  unfold map_items at 1 3. simpl. apply tabulate_ext. intros i j Hi Hj.
  by rewrite item_map_items.
Qed.

(** ** The NumPy operations against the mathematical ones *)

Lemma broadcast_dim_same (d : nat) : broadcast_dim d d = Some d.
Proof. unfold broadcast_dim. by rewrite Nat.eqb_refl. Qed.

Lemma broadcast_shape_same (s : nat * nat) : broadcast_shape s s = Some s.
Proof. destruct s. unfold broadcast_shape. simpl. by rewrite !broadcast_dim_same. Qed.

Lemma bidx_lt (d i : nat) : (i < d)%nat -> bidx d i = i.
Proof. unfold bidx. intros. destruct (Nat.eqb_spec d 1); lia. Qed.

Lemma elementwise_same_shape (f : float64 -> float64 -> float64)
    (a b : ndarray float64) :
  shape a = shape b -> elementwise f a b = Ok (Spec.pointwise f a b).
Proof.
  intros Hs. unfold elementwise. rewrite <- Hs, broadcast_shape_same.
  unfold shape in *. simpl. f_equal. unfold Spec.pointwise.
  apply tabulate_ext. intros i j Hi Hj. unfold broadcast_item.
  injection Hs as Hr Hc. rewrite <- Hr, <- Hc. by rewrite !bidx_lt.
Qed.

Lemma np_dot_matmul (a b : ndarray float64) :
  ncols a = nrows b -> np_dot a b = Ok (Spec.matmul a b).
Proof. intros Hs. unfold np_dot. by destruct (Nat.eqb_spec (ncols a) (nrows b)). Qed.

Lemma np_dot_mismatch (a b : ndarray float64) :
  ncols a <> nrows b -> np_dot a b = Raise ValueError.
Proof. intros Hs. unfold np_dot. by destruct (Nat.eqb_spec (ncols a) (nrows b)). Qed.

Lemma sig_func_sigmoid (val : ndarray float64) :
  sig_func val = map_items Spec.sigmoid val.
Proof. unfold sig_func. by rewrite !map_items_compose. Qed.

Lemma pointwise_map_items (f : float64 -> float64 -> float64)
    (k k' : float64 -> float64) (m : ndarray float64) :
  Spec.pointwise f (map_items k m) (map_items k' m)
  = map_items (fun x => f (k x) (k' x)) m.
Proof.
  apply tabulate_ext. intros i j Hi Hj. by rewrite !item_map_items.
Qed.

Lemma sig_func_g_sigmoid' (val : ndarray float64) :
  sig_func_g val = Ok (map_items Spec.sigmoid' val).
Proof.
  unfold sig_func_g, np_multiply. rewrite elementwise_same_shape by done.
  f_equal. rewrite sig_func_sigmoid, map_items_compose.
  apply pointwise_map_items.
Qed.

Lemma np_isub_same_shape (a b : ndarray float64) :
  shape a = shape b -> np_isub a b = Ok (Spec.minus a b).
Proof.
  intros Hs. unfold np_isub. rewrite <- Hs, broadcast_shape_same.
  rewrite decide_True by done. f_equal. apply tabulate_ext. intros i j Hi Hj.
  unfold broadcast_item. injection Hs as Hr Hc. rewrite <- Hr, <- Hc.
  by rewrite !bidx_lt.
Qed.

Lemma np_isub_shape (a b r : ndarray float64) :
  np_isub a b = Ok r -> shape r = shape a.
Proof.
  unfold np_isub. destruct (broadcast_shape _ _); [|done].
  case_decide; [|done]. by intros [= <-].
Qed.

(** ** Running method bodies *)

Arguments item : simpl never.
Arguments tabulate : simpl never.
Arguments transpose : simpl never.
Arguments map_items : simpl never.
Arguments elementwise : simpl never.
Arguments np_dot : simpl never.
Arguments np_isub : simpl never.
Arguments sig_func : simpl never.
Arguments sig_func_g : simpl never.
Arguments py_index : simpl never.
Arguments py_range : simpl never.

Lemma run_bind {A B} (m : M A) (k : A -> M B) (s s' : state) (a : A) :
  m s = Ok (a, s') -> bind m k s = k a s'.
Proof. intros Hm. unfold bind. by rewrite Hm. Qed.

Lemma run_bind_raise {A B} (m : M A) (k : A -> M B) (s : state) (e : exn) :
  m s = Raise e -> bind m k s = Raise e.
Proof. intros Hm. unfold bind. by rewrite Hm. Qed.

Lemma run_deref (l : loc) (m : ndarray float64) (s : state) :
  heap s !! l = Some m -> deref l s = Ok (m, s).
Proof. intros Hl. unfold deref. by rewrite Hl. Qed.

Lemma run_lift {A} (r : Res A) (a : A) (s : state) :
  r = Ok a -> lift r s = Ok (a, s).
Proof. by intros ->. Qed.

Lemma run_lift_raise {A} (r : Res A) (e : exn) (s : state) :
  r = Raise e -> lift (A := A) r s = Raise e.
Proof. by intros ->. Qed.

Lemma bind_inv {A B} (m : M A) (k : A -> M B) (s s' : state) (b : B) :
  bind m k s = Ok (b, s') ->
  exists a s1, m s = Ok (a, s1) /\ k a s1 = Ok (b, s').
Proof.
  unfold bind. destruct (m s) as [[a s1]|e]; [|done]. intros Hk. eauto.
Qed.

(** *** Python indexing *)

Lemma py_index_nonneg {A} (l : list A) (i : nat) (x : A) :
  l !! i = Some x -> py_index l (Z.of_nat i) = Ok x.
Proof.
  intros Hl. unfold py_index.
  destruct (Z.ltb_spec (Z.of_nat i) 0) as [?|_]; [lia|].
  destruct (Z.ltb_spec (Z.of_nat i) 0) as [?|_]; [lia|].
  by rewrite Nat2Z.id, Hl.
Qed.

Lemma py_index_last {A} (l : list A) (x : A) :
  py_index (l ++ [x]) (-1) = Ok x.
Proof.
  unfold py_index. rewrite length_app. simpl.
  destruct (Z.ltb_spec (-1) 0) as [_|?]; [|lia].
  destruct (Z.ltb_spec (-1 + Z.of_nat (length l + 1)) 0) as [?|_]; [lia|].
  replace (Z.to_nat (-1 + Z.of_nat (length l + 1))) with (length l) by lia.
  by rewrite list_lookup_middle.
Qed.

Lemma py_index_empty {A} (i : Z) : py_index (A := A) [] i = Raise IndexError.
Proof.
  unfold py_index. simpl. by destruct (_ <? 0)%Z.
Qed.

(** ** The forward pass *)

Lemma points_to_app (hp hp' : store) ls vs :
  points_to hp ls vs -> points_to (hp ++ hp') ls vs.
Proof.
  unfold points_to. intros Hp. eapply Forall2_impl; [exact Hp|].
  intros l v Hl. by apply lookup_app_l_Some.
Qed.

Lemma points_to_lookup (hp : store) ls vs (i : nat) (l : loc) :
  points_to hp ls vs -> ls !! i = Some l ->
  exists v, vs !! i = Some v /\ hp !! l = Some v.
Proof. intros Hp Hl. by apply (Forall2_lookup_l _ _ _ _ _ Hp Hl). Qed.

Lemma points_to_length (hp : store) ls vs :
  points_to hp ls vs -> length ls = length vs.
Proof. apply Forall2_length. Qed.

Lemma predict_loop (wls : list loc) (wvs : list (ndarray float64)) :
  forall (s : state) (acts : list loc) (last : loc) (hv : ndarray float64),
    activations (self s) = acts ++ [last] ->
    heap s !! last = Some hv ->
    points_to (heap s) wls wvs ->
    for_each wls predict_step s =
      match forward hv wvs with
      | Ok hs =>
          Ok (tt, mk_state
                    (mk_network (weights (self s))
                       (activations (self s) ++ seq (length (heap s)) (length hs)))
                    (heap s ++ hs))
      | Raise e => Raise e
      end.
Proof.
  revert wls. induction wvs as [|w wvs IH]; intros wls0 s acts last hv Hacts Hlast Hpt.
  - apply Forall2_nil_inv_r in Hpt as ->.
    simpl. unfold ret. destruct s as [[? ?] ?]. simpl. by rewrite !app_nil_r.
  - apply Forall2_cons_inv_r in Hpt as (wl & wls & Hw & Hpt & ->).
    simpl. unfold predict_step.
    unfold bind at 1 2. unfold get_activations at 1. rewrite Hacts.
    rewrite (run_bind _ _ _ _ _ (run_lift _ _ _ (py_index_last acts last))).
    rewrite (run_bind _ _ _ _ _ (run_deref _ _ _ Hlast)).
    rewrite (run_bind _ _ _ _ _ (run_deref _ _ _ Hw)).
    destruct (np_dot hv w) as [a|e] eqn:Hdot.
    2:{ by rewrite (run_bind_raise _ _ _ _ (run_lift_raise _ _ _ eq_refl)). }
    rewrite (run_bind _ _ _ _ _ (run_lift _ _ _ eq_refl)).
    unfold bind at 1, alloc at 1, set_activations at 1. simpl.
    rewrite (IH wls _ (acts ++ [last]) (length (heap s)) (sig_func a)); simpl.
    + destruct (forward (sig_func a) wvs) as [hs|e]; [|done].
      simpl. rewrite length_app. simpl.
      rewrite <- !(assoc_L (++)). simpl.
      by replace (length (heap s) + 1)%nat with (S (length (heap s))) by lia.
    + done.
    + by apply list_lookup_middle.
    + by apply points_to_app.
Qed.

Lemma py_index_minus_one {A} (l : list A) (x : A) :
  py_index (x :: l) (-1) = Ok (default x (last l)).
Proof.
  destruct l as [|y l _] using rev_ind.
  - apply (py_index_last []).
  - rewrite last_snoc. simpl. apply (py_index_last (x :: l)).
Qed.

Lemma predict_run (s : state) (input_matrix : loc)
    (x : ndarray float64) (wvs : list (ndarray float64)) :
  heap s !! input_matrix = Some x ->
  points_to (heap s) (weights (self s)) wvs ->
  predict input_matrix s =
    match forward x wvs with
    | Ok hs => Ok (output_loc s input_matrix hs, after_predict s input_matrix hs)
    | Raise e => Raise e
    end.
Proof.
  intros Hx Hws. unfold predict.
  unfold bind at 1 2, set_activations at 1, get_weights at 1. simpl.
  unfold bind at 1.
  rewrite (predict_loop _ wvs _ [] input_matrix x); [|done..].
  destruct (forward x wvs) as [hs|e]; [|done]. simpl.
  unfold bind, get_activations. simpl.
  by rewrite py_index_minus_one.
Qed.

Lemma points_to_seq (hp : store) (hs : list (ndarray float64)) :
  points_to (hp ++ hs) (seq (length hp) (length hs)) hs.
Proof.
  revert hp. induction hs as [|hv hs IH]; intros hp; [constructor|].
  simpl. constructor.
  - by apply list_lookup_middle.
  - specialize (IH (hp ++ [hv])). rewrite length_app in IH. simpl in IH.
    rewrite <- (assoc_L (++)) in IH. simpl in IH.
    by replace (S (length hp)) with (length hp + 1)%nat by lia.
Qed.

(** After [predict], the cache refers to the input and the activations. *)
Lemma after_predict_cache (s : state) (input_matrix : loc)
    (x : ndarray float64) (hs : list (ndarray float64)) :
  heap s !! input_matrix = Some x ->
  points_to (heap (after_predict s input_matrix hs))
    (activations (self (after_predict s input_matrix hs))) (x :: hs).
Proof.
  intros Hx. simpl. constructor.
  - by apply lookup_app_l_Some.
  - apply points_to_seq.
Qed.

Lemma points_to_last (hp : store) (ls : list loc) (vs : list (ndarray float64))
    (l : loc) (v : ndarray float64) :
  points_to hp ls vs -> hp !! l = Some v ->
  hp !! default l (last ls) = Some (default v (last vs)).
Proof.
  intros Hp Hl. apply Forall2_last in Hp.
  destruct Hp as [l' v' Hl'|]; simpl; done.
Qed.

Lemma predict_output (s : state) (input_matrix : loc)
    (x : ndarray float64) (hs : list (ndarray float64)) :
  heap s !! input_matrix = Some x ->
  heap (after_predict s input_matrix hs) !! output_loc s input_matrix hs
  = Some (output_of x hs).
Proof.
  intros Hx. unfold output_loc, output_of.
  apply points_to_last; [apply points_to_seq|].
  by apply lookup_app_l_Some.
Qed.

(** ** Shapes *)

Lemma h_cons (w : ndarray float64) (ws : list (ndarray float64))
    (x : ndarray float64) (l : nat) :
  Spec.h (w :: ws) x (S l)
  = Spec.h ws (map_items Spec.sigmoid (Spec.matmul x w)) l.
Proof.
  induction l as [|l IH]; [done|].
  change (Spec.h (w :: ws) x (S (S l)))
    with (map_items Spec.sigmoid
            (Spec.matmul (Spec.h (w :: ws) x (S l)) ((w :: ws) !!! S l))).
  by rewrite IH.
Qed.

Lemma nrows_h (ws : list (ndarray float64)) (x : ndarray float64) (l : nat) :
  nrows (Spec.h ws x l) = nrows x.
Proof. induction l as [|l IH]; [done|]. simpl. exact IH. Qed.

Lemma ncols_h_S (ws : list (ndarray float64)) (x : ndarray float64) (l : nat) :
  ncols (Spec.h ws x (S l)) = ncols (ws !!! l).
Proof. done. Qed.

Lemma compatible_lookup (ws : list (ndarray float64)) (x : ndarray float64) (l : nat) :
  compatible (ncols x) ws -> (l < length ws)%nat ->
  ncols (Spec.h ws x l) = nrows (ws !!! l).
Proof.
  revert x l. induction ws as [|w ws IH]; intros x l Hc Hl; simpl in Hl; [lia|].
  destruct Hc as [Hx Hc]. destruct l as [|l]; [done|].
  rewrite h_cons. apply IH; [done|lia].
Qed.

Lemma output_units_h (ws : list (ndarray float64)) (x : ndarray float64) :
  ncols (Spec.h ws x (length ws)) = output_units (ncols x) ws.
Proof.
  unfold output_units. destruct ws as [|w ws _] using rev_ind; [done|].
  rewrite last_snoc, length_app. simpl.
  replace (length ws + 1)%nat with (S (length ws)) by lia.
  rewrite ncols_h_S. f_equal.
  by rewrite lookup_total_app_r, Nat.sub_diag by lia.
Qed.

Lemma forward_spec (ws : list (ndarray float64)) (x : ndarray float64) :
  compatible (ncols x) ws ->
  forward x ws = Ok (Spec.h ws x <$> seq 1 (length ws)).
Proof.
  revert x. induction ws as [|w ws IH]; intros x Hc; [done|].
  destruct Hc as [Hx Hc]. simpl.
  rewrite np_dot_matmul by done. rewrite sig_func_sigmoid.
  rewrite IH by done. do 2 f_equal.
  rewrite <- (fmap_S_seq 1), <- list_fmap_compose.
  apply list_fmap_ext. intros _ l _. simpl. by rewrite <- h_cons.
Qed.

Lemma output_of_spec (ws : list (ndarray float64)) (x : ndarray float64) :
  output_of x (Spec.h ws x <$> seq 1 (length ws)) = Spec.predict ws x.
Proof.
  unfold output_of, Spec.predict. rewrite fmap_last.
  destruct (length ws) as [|n]; [done|].
  replace (S n) with (n + 1)%nat by lia.
  rewrite seq_app. simpl. rewrite last_snoc. simpl. by rewrite Nat.add_1_r.
Qed.

(** ** Real-valued arrays *)





Lemma sigmoid_unit (r : R) : in_unit_interval (Spec.sigmoid (Fin r)).
Proof.
  unfold Spec.sigmoid, fneg, fexp, fadd, fdiv.
  pose proof (exp_pos (- r)) as Hexp.
  destruct (Req_dec_T (1 + exp (- r)) 0) as [Heq|_]; [lra|].
  simpl. split.
  - apply Rdiv_lt_0_compat; lra.
  - apply (Rmult_lt_reg_r (1 + exp (- r))); [lra|].
    unfold Rdiv. rewrite Rmult_assoc, Rinv_l by lra. lra.
Qed.





Lemma all_items_impl {A} `{Inhabited A} (P Q : A -> Prop) (m : ndarray A) :
  (forall x, P x -> Q x) -> all_items P m -> all_items Q m.
Proof. intros HPQ Hm i j Hi Hj. auto. Qed.





(** ** Backpropagation *)

Arguments Spec.h : simpl never.
Arguments Spec.g_down : simpl never.
Arguments Spec.matmul : simpl never.
Arguments Spec.pointwise : simpl never.

Lemma run_index_deref {B} (ls : list loc) (vs : list (ndarray float64))
    (i : nat) (v : ndarray float64) (k : ndarray float64 -> M B) (s : state) :
  points_to (heap s) ls vs -> vs !! i = Some v ->
  bind (lift (py_index ls (Z.of_nat i))) (fun l => bind (deref l) k) s = k v s.
Proof.
  intros Hp Hv.
  destruct (Forall2_lookup_r _ _ _ _ _ Hp Hv) as (l & Hl & Hlv).
  rewrite (run_bind _ _ _ _ _ (run_lift _ _ _ (py_index_nonneg _ _ _ Hl))).
  by rewrite (run_bind _ _ _ _ _ (run_deref _ _ _ Hlv)).
Qed.

Lemma activations_lookup (ws : list (ndarray float64)) (x : ndarray float64) (l : nat) :
  (l <= length ws)%nat ->
  (x :: (Spec.h ws x <$> seq 1 (length ws))) !! l = Some (Spec.h ws x l).
Proof.
  intros Hl. destruct l as [|l]; [done|]. simpl.
  rewrite list_lookup_fmap, lookup_seq_lt by lia. done.
Qed.

Lemma bind_lift_ok {A B} (r : Res A) (a : A) (k : A -> M B) (s : state) :
  r = Ok a -> bind (lift r) k s = k a s.
Proof. by intros ->. Qed.

Lemma bind_deref_ok {B} (l : loc) (m : ndarray float64)
    (k : ndarray float64 -> M B) (s : state) :
  heap s !! l = Some m -> bind (deref l) k s = k m s.
Proof. intros Hl. by rewrite (run_bind _ _ _ _ _ (run_deref _ _ _ Hl)). Qed.

Section Backpropagation.

Variable ws : list (ndarray float64).
Variable x y : ndarray float64.

Let L := length ws.
Let N := nrows x.

Hypothesis Hcompat : compatible (ncols x) ws.
Hypothesis Hy : shape y = (nrows x, output_units (ncols x) ws).

Lemma weights_chain (l : nat) :
  (S l < L)%nat -> ncols (ws !!! l) = nrows (ws !!! S l).
Proof using Hcompat.
  intros Hl. rewrite <- ncols_h_S with (x := x).
  by apply compatible_lookup.
Qed.

Lemma g_last_layer : 
  Spec.g ws x y L
  = transpose (Spec.hadamard (Spec.error_L ws x y)
                 (map_items Spec.sigmoid' (Spec.a ws x L))).
Proof. unfold Spec.g. subst L. by rewrite Nat.sub_diag. Qed.

Lemma g_inner_layer (l : nat) :
  (1 <= l)%nat -> (l < L)%nat ->
  Spec.g ws x y l
  = transpose (Spec.hadamard
                 (transpose (Spec.matmul (ws !!! l) (Spec.g ws x y (l + 1))))
                 (map_items Spec.sigmoid' (Spec.a ws x l))).
Proof.
  intros H1 Hl. unfold Spec.g. subst L.
  replace (length ws - l)%nat with (S (length ws - (l + 1))) by lia.
  change (Spec.g_down ws x y (S (length ws - (l + 1))))
    with (transpose (Spec.hadamard
            (transpose (Spec.matmul
               (ws !!! (length ws - S (length ws - (l + 1)))%nat)
               (Spec.g_down ws x y (length ws - (l + 1)))))
            (map_items Spec.sigmoid'
               (Spec.a ws x (length ws - S (length ws - (l + 1))))))).
  by replace (length ws - S (length ws - (l + 1)))%nat with l by lia.
Qed.

Lemma ncols_g_down (d : nat) : ncols (Spec.g_down ws x y d) = N.
Proof.
  induction d as [|d IH].
  - change (ncols (Spec.g_down ws x y 0)) with (nrows (Spec.h ws x (length ws))).
    apply nrows_h.
  - exact IH.
Qed.

Lemma ncols_g (l : nat) : ncols (Spec.g ws x y l) = N.
Proof. apply ncols_g_down. Qed.

Lemma nrows_g (l : nat) :
  (1 <= l)%nat -> (l <= L)%nat -> nrows (Spec.g ws x y l) = ncols (ws !!! (l - 1)%nat).
Proof using Hcompat.
  intros H1 Hl. destruct (decide (l = L)) as [->|Hne].
  - rewrite g_last_layer.
    change (nrows (transpose _)) with (ncols (Spec.h ws x L)).
    replace L with (S (L - 1)) at 1 by lia. apply ncols_h_S.
  - rewrite g_inner_layer by lia.
    change (nrows (transpose _)) with (nrows (ws !!! l)).
    replace l with (S (l - 1)) at 1 by lia. symmetry. apply weights_chain. lia.
Qed.

Lemma weight_lookup (l : nat) : (l < L)%nat -> ws !! l = Some (ws !!! l).
Proof. intros Hl. by apply list_lookup_lookup_total_lt. Qed.

Lemma back_propagate_step_run (s : state) (k : nat)
    (grad : list (ndarray float64)) :
  cached ws x s -> (1 <= k)%nat -> (k < L)%nat ->
  back_propagate_step (Z.of_nat k) (Spec.g ws x y (k + 1)) grad s
  = Ok ((Spec.g ws x y k, raw_grad ws x y (k - 1) :: grad), s).
Proof using Hcompat Hy.
  intros [Hws Hacts] H1 Hk. unfold back_propagate_step.
  unfold bind at 1 2, get_weights at 1, get_activations at 1.
  rewrite (run_index_deref _ _ k _ _ _ Hws (weight_lookup k Hk)).
  erewrite bind_lift_ok.
  2:{ apply np_dot_matmul. rewrite nrows_g by lia.
      replace (k + 1 - 1)%nat with k by lia. done. }
  replace (Z.of_nat k - 1)%Z with (Z.of_nat (k - 1)) by lia.
  rewrite (run_index_deref _ _ (k - 1) _ _ _ Hacts
             (activations_lookup ws x (k - 1) ltac:(lia))).
  rewrite (run_index_deref _ _ (k - 1) _ _ _ Hws (weight_lookup (k - 1) ltac:(lia))).
  erewrite bind_lift_ok.
  2:{ apply np_dot_matmul. apply compatible_lookup; [done|lia]. }
  erewrite bind_lift_ok by apply sig_func_g_sigmoid'.
  erewrite bind_lift_ok.
  2:{ apply elementwise_same_shape. unfold shape. f_equal.
      - change (ncols (Spec.g ws x y (k + 1)) = nrows (Spec.h ws x (k - 1))).
        by rewrite ncols_g, nrows_h.
      - change (nrows (ws !!! k) = ncols (ws !!! (k - 1)%nat)).
        symmetry. replace k with (S (k - 1)) at 2 by lia.
        apply weights_chain. lia. }
  rewrite (run_index_deref _ _ (k - 1) _ _ _ Hacts
             (activations_lookup ws x (k - 1) ltac:(lia))).
  fold (Spec.a ws x k). fold Spec.hadamard. rewrite <- g_inner_layer by lia.
  erewrite bind_lift_ok.
  2:{ apply np_dot_matmul. by rewrite ncols_g, nrows_h. }
  unfold ret, raw_grad. by replace (k - 1 + 1)%nat with k by lia.
Qed.

Lemma back_propagate_run (s : state) (k : nat) :
  cached ws x s -> (k < L)%nat ->
  back_propagate k (Spec.g ws x y (k + 1)) (raw_grad ws x y <$> seq k (L - k)) s
  = Ok ((Spec.g ws x y 1, raw_grad ws x y <$> seq 0 L), s).
Proof using Hcompat Hy.
  intros Hs. induction k as [|k IH]; intros Hk.
  - simpl. unfold ret. by rewrite Nat.sub_0_r.
  - change (back_propagate (S k) ?g ?gr)
      with (bind (back_propagate_step (Z.of_nat (S k)) g gr)
              (fun r => back_propagate k r.1 r.2)).
    erewrite run_bind by (apply back_propagate_step_run; [done|lia..]).
    simpl. replace (k - 0)%nat with k by lia.
    replace (S k) with (k + 1)%nat by lia.
    assert (raw_grad ws x y k :: (raw_grad ws x y <$> seq (k + 1) (L - (k + 1)))
            = raw_grad ws x y <$> seq k (L - k)) as ->.
    { replace (L - k)%nat with (S (L - (k + 1))) by lia. simpl.
      by replace (S k) with (k + 1)%nat by lia. }
    apply IH. lia.
Qed.

End Backpropagation.

Lemma predict_spec_run (s : state) (input_matrix : loc)
    (x : ndarray float64) (ws : list (ndarray float64)) :
  heap s !! input_matrix = Some x ->
  points_to (heap s) (weights (self s)) ws ->
  compatible (ncols x) ws ->
  let hs := Spec.h ws x <$> seq 1 (length ws) in
  predict input_matrix s
  = Ok (output_loc s input_matrix hs, after_predict s input_matrix hs) /\
  heap (after_predict s input_matrix hs) !! output_loc s input_matrix hs
  = Some (Spec.predict ws x).
Proof.
  intros Hx Hws Hc hs. split.
  - rewrite (predict_run _ _ x ws) by done. by rewrite forward_spec.
  - rewrite (predict_output _ _ x) by done. f_equal. apply output_of_spec.
Qed.

Lemma after_predict_cached (s : state) (input_matrix : loc)
    (x : ndarray float64) (ws : list (ndarray float64)) :
  heap s !! input_matrix = Some x ->
  points_to (heap s) (weights (self s)) ws ->
  cached ws x (after_predict s input_matrix (Spec.h ws x <$> seq 1 (length ws))).
Proof.
  intros Hx Hws. split.
  - by apply points_to_app.
  - by apply after_predict_cache.
Qed.

Lemma gradients_run (s : state) (input_matrix output_matrix : loc)
    (x y : ndarray float64) (ws : list (ndarray float64)) :
  heap s !! input_matrix = Some x ->
  heap s !! output_matrix = Some y ->
  points_to (heap s) (weights (self s)) ws ->
  compatible (ncols x) ws ->
  shape y = (nrows x, output_units (ncols x) ws) ->
  (1 <= length ws)%nat ->
  gradients input_matrix output_matrix s
  = Ok (Spec.gradients ws x y,
        after_predict s input_matrix (Spec.h ws x <$> seq 1 (length ws))).
Proof.
  intros Hx Hy Hws Hc Hsy HL.
  destruct (predict_spec_run s input_matrix x ws Hx Hws Hc) as [Hrun Hout].
  pose proof (after_predict_cached s input_matrix x ws Hx Hws) as [Hws' Hacts].
  set (hs := Spec.h ws x <$> seq 1 (length ws)) in *.
  set (s1 := after_predict s input_matrix hs) in *.
  assert (heap s1 !! input_matrix = Some x) as Hx1 by by apply lookup_app_l_Some.
  assert (heap s1 !! output_matrix = Some y) as Hy1 by by apply lookup_app_l_Some.
  unfold gradients.
  unfold bind at 1, get_weights at 1.
  rewrite (points_to_length _ _ _ Hws).
  rewrite (run_bind _ _ _ _ _ Hrun).
  rewrite (bind_deref_ok _ _ _ _ Hout).
  rewrite (bind_deref_ok _ _ _ _ Hy1).
  erewrite bind_lift_ok.
  2:{ apply elementwise_same_shape. rewrite Hsy. unfold shape, Spec.predict.
      by rewrite nrows_h, output_units_h. }
  unfold bind at 1, get_activations at 1.
  replace (Z.of_nat (length ws) - 1)%Z with (Z.of_nat (length ws - 1)) by lia.
  rewrite (run_index_deref _ _ (length ws - 1) _ _ _ Hacts
             (activations_lookup ws x (length ws - 1) ltac:(lia))).
  replace (weights (self s)) with (weights (self s1)) by done.
  rewrite (run_index_deref _ _ (length ws - 1) _ _ _ Hws'
             (weight_lookup ws (length ws - 1) ltac:(lia))).
  erewrite bind_lift_ok.
  2:{ apply np_dot_matmul. apply compatible_lookup; [done|lia]. }
  erewrite bind_lift_ok by apply sig_func_g_sigmoid'.
  erewrite bind_lift_ok.
  2:{ apply elementwise_same_shape. unfold shape. f_equal.
      - change (nrows (Spec.h ws x (length ws)) = nrows (Spec.h ws x (length ws - 1))).
        by rewrite !nrows_h.
      - change (ncols (Spec.h ws x (length ws)) = ncols (ws !!! (length ws - 1)%nat)).
        replace (length ws) with (S (length ws - 1)) at 1 by lia. apply ncols_h_S. }
  rewrite (run_index_deref _ _ (length ws - 1) _ _ _ Hacts
             (activations_lookup ws x (length ws - 1) ltac:(lia))).
  fold (Spec.minus (Spec.predict ws x) y).
  change (Spec.minus (Spec.predict ws x) y) with (Spec.error_L ws x y).
  fold (Spec.a ws x (length ws)). fold Spec.hadamard.
  rewrite <- g_last_layer.
  erewrite bind_lift_ok.
  2:{ apply np_dot_matmul. by rewrite ncols_g, nrows_h. }
  rewrite Nat2Z.id.
  erewrite run_bind.
  2:{ pose proof (back_propagate_run ws x y Hc Hsy s1 (length ws - 1)
                    (conj Hws' Hacts) ltac:(lia)) as Hloop.
      replace (length ws - (length ws - 1))%nat with 1%nat in Hloop by lia.
      simpl in Hloop. unfold raw_grad at 1 in Hloop.
      replace (length ws - 1 + 1)%nat with (length ws) in Hloop by lia.
      exact Hloop. }
  rewrite (bind_deref_ok _ _ _ _ Hx1).
  unfold ret. simpl. do 2 f_equal.
  unfold Spec.gradients. rewrite <- list_fmap_compose. done.
Qed.

(** ** Training *)

Lemma points_to_total (hp : store) (ls : list loc) (vs : list (ndarray float64)) :
  points_to hp ls vs -> (fun l => hp !!! l) <$> ls = vs.
Proof.
  induction 1 as [|l v ls vs Hl _ IH]; [done|].
  rewrite fmap_cons. f_equal; [|exact IH]. by apply list_lookup_total_correct.
Qed.

Lemma fits_descend_one (lr : float64) (g : ndarray float64) (l : loc)
    (hp : store) (gw : ndarray float64 * loc) :
  fits hp gw -> fits (descend_one lr g l hp) gw.
Proof.
  intros (m & Hm & Hs). unfold fits, descend_one.
  destruct (decide (l = gw.2)) as [->|Hne].
  - rewrite list_lookup_alter_eq, Hm. simpl. eauto.
  - rewrite list_lookup_alter_ne by done. eauto.
Qed.

Lemma update_weights_run (lr : float64) (gws : list (ndarray float64 * loc)) :
  forall s : state,
    Forall (fits (heap s)) gws ->
    for_each gws (update_weight lr) s
    = Ok (tt, mk_state (self s)
                (foldl (fun hp gw => descend_one lr gw.1 gw.2 hp) (heap s) gws)).
Proof.
  induction gws as [|[g l] gws IH]; intros s Hfit.
  - by destruct s.
  - apply Forall_cons in Hfit as [(m & Hm & Hs) Hfit]. simpl in Hm, Hs.
    simpl. unfold update_weight at 1. unfold bind at 1. simpl.
    rewrite (bind_deref_ok _ _ _ _ Hm).
    erewrite bind_lift_ok by (by apply np_isub_same_shape).
    unfold assign. rewrite Hm.
    assert (<[l:=Spec.minus m (scale lr g)]> (heap s) = descend_one lr g l (heap s)) as ->.
    { unfold descend_one. apply list_eq. intros i.
      destruct (decide (i = l)) as [->|Hne].
      - rewrite list_lookup_alter_eq, Hm. simpl.
        apply list_lookup_insert_eq. by eapply lookup_lt_Some.
      - by rewrite list_lookup_alter_ne, list_lookup_insert_ne by done. }
    rewrite IH; [done|]. simpl.
    eapply Forall_impl; [exact Hfit|]. intros gw. apply fits_descend_one.
Qed.

Lemma foldl_zip_seq {A B C} `{Inhabited A} `{Inhabited B}
    (f : C -> A -> B -> C) (la : list A) (lb : list B) :
  length la = length lb ->
  forall c,
    foldl (fun c ab => f c ab.1 ab.2) c (zip la lb)
    = foldl (fun c k => f c (la !!! k) (lb !!! k)) c (seq 0 (length lb)).
Proof.
  revert lb. induction la as [|a la IH]; intros [|b lb] Hlen c; try done.
  simpl. rewrite <- fmap_S_seq, foldl_fmap. simpl.
  apply IH. simpl in Hlen. lia.
Qed.

(** *** Stores that keep every array and its shape *)

Lemma extends_refl (hp : store) : extends hp hp.
Proof. intros l m Hm. eauto. Qed.

Lemma extends_trans (hp1 hp2 hp3 : store) :
  extends hp1 hp2 -> extends hp2 hp3 -> extends hp1 hp3.
Proof.
  intros H12 H23 l m Hm.
  destruct (H12 l m Hm) as (m2 & Hm2 & Hs2).
  destruct (H23 l m2 Hm2) as (m3 & Hm3 & Hs3).
  exists m3. split; [done|congruence].
Qed.

Lemma extends_app (hp hp' : store) : extends hp (hp ++ hp').
Proof. intros l m Hm. exists m. split; [by apply lookup_app_l_Some|done]. Qed.

Lemma extends_insert (hp : store) (l : loc) (m m' : ndarray float64) :
  hp !! l = Some m -> shape m' = shape m -> extends hp (<[l:=m']> hp).
Proof.
  intros Hm Hs l0 m0 Hm0. destruct (decide (l0 = l)) as [->|Hne].
  - exists m'. split; [|congruence].
    apply list_lookup_insert_eq. by eapply lookup_lt_Some.
  - exists m0. by rewrite list_lookup_insert_ne.
Qed.

Lemma extends_descend_one (lr : float64) (g : ndarray float64) (l : loc) (hp : store) :
  extends hp (descend_one lr g l hp).
Proof.
  intros l0 m0 Hm0. unfold descend_one. destruct (decide (l = l0)) as [->|Hne].
  - rewrite list_lookup_alter_eq, Hm0. simpl. eauto.
  - rewrite list_lookup_alter_ne by done. eauto.
Qed.

Lemma extends_descend (lr : float64) (gs : list (ndarray float64))
    (wls : list loc) (hp : store) :
  extends hp (descend lr gs wls hp).
Proof.
  unfold descend. generalize (seq 0 (length wls)). intros ks. revert hp.
  induction ks as [|k ks IH]; intros hp; [apply extends_refl|].
  simpl. eapply extends_trans; [apply extends_descend_one|apply IH].
Qed.

Lemma extends_points_to (hp hp' : store) (ls : list loc) (ws : list (ndarray float64)) :
  extends hp hp' -> points_to hp ls ws ->
  exists ws', points_to hp' ls ws' /\ same_shapes ws ws'.
Proof.
  intros Hext. induction 1 as [|l w ls ws Hl _ (ws' & Hp & Hs)].
  - exists []. split; constructor.
  - destruct (Hext l w Hl) as (w' & Hl' & Hw').
    exists (w' :: ws'). split; by constructor.
Qed.

Lemma compatible_same_shapes (c : nat) (ws ws' : list (ndarray float64)) :
  same_shapes ws ws' -> compatible c ws -> compatible c ws'.
Proof.
  intros Hs. revert c. induction Hs as [|w w' ws ws' Hw _ IH]; intros c; [done|].
  injection Hw as Hr Hc. simpl. rewrite Hr, Hc. intros [-> Hrest]. auto.
Qed.

Lemma output_units_same_shapes (c : nat) (ws ws' : list (ndarray float64)) :
  same_shapes ws ws' -> output_units c ws' = output_units c ws.
Proof.
  intros Hs. unfold output_units. apply Forall2_last in Hs.
  destruct Hs as [w w' Hw|]; [|done]. simpl. by injection Hw.
Qed.

Lemma ready_extends (input_matrix output_matrix : loc) (s s' : state) :
  ready input_matrix output_matrix s ->
  extends (heap s) (heap s') ->
  weights (self s') = weights (self s) ->
  ready input_matrix output_matrix s'.
Proof.
  intros (x & y & ws & Hx & Hy & Hws & Hc & Hsy & HL) Hext Hw.
  destruct (Hext _ _ Hx) as (x' & Hx' & Hsx).
  destruct (Hext _ _ Hy) as (y' & Hy' & Hsy').
  destruct (extends_points_to _ _ _ _ Hext Hws) as (ws' & Hws' & Hss).
  injection Hsx as Hxr Hxc.
  exists x', y', ws'. rewrite Hw. repeat split; try done.
  - rewrite Hxc. by apply (compatible_same_shapes _ ws).
  - by rewrite Hsy', Hsy, Hxr, Hxc, (output_units_same_shapes _ ws ws' Hss).
  - by rewrite <- (Forall2_length _ _ _ Hss).
Qed.

(** *** One repetition *)

Lemma shape_grad (ws : list (ndarray float64)) (x y : ndarray float64) (l : nat) :
  compatible (ncols x) ws -> (l < length ws)%nat ->
  shape (Spec.grad ws x y l) = shape (ws !!! l).
Proof.
  intros Hc Hl. unfold shape. f_equal.
  - change (ncols (Spec.h ws x l) = nrows (ws !!! l)). by apply compatible_lookup.
  - change (nrows (Spec.g ws x y (l + 1)) = ncols (ws !!! l)).
    rewrite nrows_g by (done || lia). f_equal. f_equal. lia.
Qed.

Lemma train_iteration_run (s : state) (input_matrix output_matrix : loc)
    (learning_rate : float64) :
  ready input_matrix output_matrix s ->
  train_iteration input_matrix output_matrix learning_rate s
  = Ok (tt, training_step input_matrix output_matrix learning_rate s).
Proof.
  intros (x & y & ws & Hx & Hy & Hws & Hc & Hsy & HL).
  unfold train_iteration.
  rewrite (run_bind _ _ _ _ _ (gradients_run _ _ _ _ _ _ Hx Hy Hws Hc Hsy HL)).
  unfold bind at 1, get_weights at 1.
  unfold training_step.
  rewrite (points_to_total _ _ _ Hws).
  rewrite (list_lookup_total_correct _ _ _ Hx), (list_lookup_total_correct _ _ _ Hy).
  set (s1 := after_predict s input_matrix (Spec.h ws x <$> seq 1 (length ws))).
  assert (length (Spec.gradients ws x y) = length (weights (self s))) as Hlen.
  { unfold Spec.gradients. rewrite length_fmap, length_seq.
    symmetry. by eapply points_to_length. }
  rewrite update_weights_run.
  - do 3 f_equal. unfold descend.
    by rewrite <- (foldl_zip_seq (fun hp g l => descend_one learning_rate g l hp)).
  - apply Forall_lookup. intros i [g l] Hi.
    apply lookup_zip_with_Some in Hi as (g' & l' & [= <- <-] & Hg & Hl).
    unfold Spec.gradients in Hg. rewrite list_lookup_fmap in Hg.
    destruct (seq 0 (length ws) !! i) as [i'|] eqn:Hi; [|done].
    apply lookup_seq in Hi as [-> Hi]. injection Hg as <-.
    destruct (points_to_lookup _ _ _ _ _ Hws Hl) as (w & Hw & Hlw).
    exists w. split; [by apply lookup_app_l_Some|]. simpl.
    rewrite shape_grad by done. f_equal. symmetry.
    by apply list_lookup_total_correct.
Qed.

Lemma training_step_ready (s : state) (input_matrix output_matrix : loc)
    (learning_rate : float64) :
  ready input_matrix output_matrix s ->
  ready input_matrix output_matrix
    (training_step input_matrix output_matrix learning_rate s).
Proof.
  intros Hs. eapply ready_extends; [exact Hs| |done].
  unfold training_step. simpl.
  eapply extends_trans; [apply extends_app|apply extends_descend].
Qed.

(** *** The loop over [range(0, iterations)] *)

Lemma for_each_range {A} (f : nat -> A) (k : nat) (body : M unit)
    (step : state -> state) (P : state -> Prop) :
  (forall s, P s -> body s = Ok (tt, step s) /\ P (step s)) ->
  forall (a : nat) (s : state),
    P s ->
    for_each (f <$> seq a k) (fun _ => body) s = Ok (tt, Nat.iter k step s).
Proof.
  intros Hbody. induction k as [|k IH]; intros a s Hs; [done|].
  destruct (Hbody s Hs) as [Hrun Hs'].
  rewrite Nat.iter_succ_r. simpl.
  rewrite (run_bind _ _ _ _ _ Hrun). by apply IH.
Qed.

Lemma train_run (s : state) (input_matrix output_matrix : loc)
    (iterations : option Z) (learning_rate : option float64) :
  ready input_matrix output_matrix s ->
  train input_matrix output_matrix iterations learning_rate s
  = Ok (tt, Nat.iter (Z.to_nat (default default_iterations iterations))
              (training_step input_matrix output_matrix
                 (default default_learning_rate learning_rate)) s).
Proof.
  intros Hs. unfold train, py_range. rewrite Z.sub_0_r.
  apply (for_each_range _ _ _ _ (ready input_matrix output_matrix)); [|done].
  intros s0 Hs0. split.
  - by apply train_iteration_run.
  - by apply training_step_ready.
Qed.

Lemma train_no_iterations (s : state) (input_matrix output_matrix : loc)
    (iterations : Z) (learning_rate : option float64) :
  (iterations <= 0)%Z ->
  train input_matrix output_matrix (Some iterations) learning_rate s = Ok (tt, s).
Proof.
  intros Hn. unfold train, py_range. simpl.
  by replace (Z.to_nat (iterations - 0)) with 0%nat by lia.
Qed.

(** ** What no method changes

    A method body that returns leaves [self.weights] as it was, and keeps
    every array of the store with its shape. *)

Lemma preserves_ret {A} (a : A) : preserves (ret a).
Proof. intros s a' s' [= <- <-]. split; [done|apply extends_refl]. Qed.

Lemma preserves_lift {A} (r : Res A) : preserves (lift r).
Proof.
  intros s a s'. unfold lift. destruct r; [|done].
  intros [= <- <-]. split; [done|apply extends_refl].
Qed.

Lemma preserves_deref (l : loc) : preserves (deref l).
Proof.
  intros s a s'. unfold deref. destruct (heap s !! l); [|done].
  intros [= <- <-]. split; [done|apply extends_refl].
Qed.

Lemma preserves_alloc (m : ndarray float64) : preserves (alloc m).
Proof. intros s a s' [= <- <-]. split; [done|apply extends_app]. Qed.

Lemma preserves_get_weights : preserves get_weights.
Proof. intros s a s' [= <- <-]. split; [done|apply extends_refl]. Qed.

Lemma preserves_get_activations : preserves get_activations.
Proof. intros s a s' [= <- <-]. split; [done|apply extends_refl]. Qed.

Lemma preserves_set_activations (acts : list loc) : preserves (set_activations acts).
Proof. intros s a s' [= <- <-]. split; [done|apply extends_refl]. Qed.

Lemma preserves_bind {A B} (m : M A) (k : A -> M B) :
  preserves m -> (forall a, preserves (k a)) -> preserves (bind m k).
Proof.
  intros Hm Hk s b s' Hrun.
  apply bind_inv in Hrun as (a & s1 & Hm1 & Hk1).
  destruct (Hm _ _ _ Hm1) as [Hw1 He1].
  destruct (Hk _ _ _ _ Hk1) as [Hw2 He2].
  split; [congruence|by eapply extends_trans].
Qed.

Lemma preserves_for_each {A} (l : list A) (body : A -> M unit) :
  (forall a, preserves (body a)) -> preserves (for_each l body).
Proof.
  intros Hbody. induction l as [|a l IH]; simpl.
  - apply preserves_ret.
  - apply preserves_bind; [apply Hbody|]. intros _. apply IH.
Qed.

Lemma preserves_update_weight (lr : float64) (gw : ndarray float64 * loc) :
  preserves (update_weight lr gw).
Proof.
  intros s a s' Hrun. unfold update_weight in Hrun.
  apply bind_inv in Hrun as (w & s1 & Hw & Hrun).
  apply bind_inv in Hrun as (w' & s2 & Hw' & Hrun).
  unfold deref in Hw. destruct (heap s !! gw.2) as [w0|] eqn:Hl; [|done].
  injection Hw as <- <-.
  unfold lift in Hw'. destruct (np_isub w0 _) as [r|] eqn:Hsub; [|done].
  injection Hw' as <- <-.
  unfold assign in Hrun. rewrite Hl in Hrun. injection Hrun as Hs'. subst s'.
  split; [done|]. simpl. eapply extends_insert; [done|].
  by eapply np_isub_shape.
Qed.

Create HintDb frame.

#[global] Hint Resolve preserves_ret preserves_lift preserves_deref
  preserves_alloc preserves_get_weights preserves_get_activations
  preserves_set_activations preserves_update_weight : frame.

Ltac frame_steps :=
  repeat first
    [ solve [auto with frame]
    | apply preserves_bind; [|intros ?]
    | apply preserves_for_each; intros ? ].

Lemma preserves_predict_step (weight : loc) : preserves (predict_step weight).
Proof. unfold predict_step. frame_steps. Qed.

Lemma preserves_predict (input_matrix : loc) : preserves (predict input_matrix).
Proof. unfold predict. frame_steps. Qed.

Lemma preserves_back_propagate_step (layer : Z) (g_last : ndarray float64)
    (grad : list (ndarray float64)) :
  preserves (back_propagate_step layer g_last grad).
Proof. unfold back_propagate_step. frame_steps. Qed.

Lemma preserves_back_propagate (k : nat) (g_last : ndarray float64)
    (grad : list (ndarray float64)) :
  preserves (back_propagate k g_last grad).
Proof.
  revert g_last grad. induction k as [|k IH]; intros g_last grad; simpl.
  - apply preserves_ret.
  - apply preserves_bind; [apply preserves_back_propagate_step|].
    intros r. apply IH.
Qed.

#[global] Hint Resolve preserves_predict preserves_back_propagate : frame.

Lemma preserves_gradients (input_matrix output_matrix : loc) :
  preserves (gradients input_matrix output_matrix).
Proof. unfold gradients. frame_steps. Qed.

Lemma preserves_train_iteration (input_matrix output_matrix : loc)
    (learning_rate : float64) :
  preserves (train_iteration input_matrix output_matrix learning_rate).
Proof.
  unfold train_iteration.
  apply preserves_bind; [apply preserves_gradients|]. intros gs. frame_steps.
Qed.

Lemma preserves_train (input_matrix output_matrix : loc)
    (iterations : option Z) (learning_rate : option float64) :
  preserves (train input_matrix output_matrix iterations learning_rate).
Proof.
  unfold train. apply preserves_for_each. intros _.
  apply preserves_train_iteration.
Qed.

(** ** The division by the batch size *)





Section RealValuedGradients.

Variable ws : list (ndarray float64).
Variable x y : ndarray float64.

Let L := length ws.

Hypothesis Hcompat : compatible (ncols x) ws.
Hypothesis Hy : shape y = (nrows x, output_units (ncols x) ws).
Hypothesis Hx_real : real_valued x.
Hypothesis Hy_real : real_valued y.
Hypothesis Hws_real : Forall real_valued ws.





End RealValuedGradients.

(** * The claims *)

(** ** Concrete networks *)

Lemma net1_ready : ready 1 2 Examples.net1.
Proof.
  exists Examples.x1, Examples.y1, [Examples.w1]. repeat split; try reflexivity.
  repeat constructor.
Qed.

(** The forward pass on [Examples.net1]: the sigmoid of [0 * 1] is one half. *)
Lemma net1_output : item (Spec.predict [Examples.w1] Examples.x1) 0 0 = Fin (1 / 2).
Proof.
  unfold Spec.predict. simpl length.
  change (Spec.h [Examples.w1] Examples.x1 1)
    with (map_items Spec.sigmoid (Spec.matmul Examples.x1 Examples.w1)).
  rewrite item_map_items by (simpl; lia).
  unfold Spec.matmul. rewrite item_tabulate by (simpl; lia).
  unfold fsum. simpl. unfold item. simpl.
  unfold Spec.sigmoid, fadd, fmul, fneg, fexp, fdiv.
  replace (- (0 + 0 * 1)) with 0 by lra. rewrite exp_0.
  destruct (Req_dec_T (1 + 1) 0) as [Heq|_]; [lra|]. f_equal; lra.
Qed.

(** ** [gradients] *)

(** C1: for a network with the weight matrices [ws] ([L >= 1] of them,
    chaining from the input), an input [x] of [N >= 1] rows and a target
    [y] of shape [(N, n_L)], [gradients] returns exactly the list of the
    backpropagation procedure of the specification, [Spec.gradients]:
    one gradient per weight matrix, the gradient at position [l] being
    [grad_l]. *)
Theorem gradients_backpropagation (s : state) (input_matrix output_matrix : loc)
    (x y : ndarray float64) (ws : list (ndarray float64)) :
  heap s !! input_matrix = Some x ->
  heap s !! output_matrix = Some y ->
  points_to (heap s) (weights (self s)) ws ->
  compatible (ncols x) ws ->
  (1 <= length ws)%nat ->
  (1 <= nrows x)%nat ->
  shape y = (nrows x, output_units (ncols x) ws) ->
  exists gs s',
    gradients input_matrix output_matrix s = Ok (gs, s') /\
    gs = Spec.gradients ws x y /\
    length gs = length ws /\
    forall l, (l < length ws)%nat -> gs !! l = Some (Spec.grad ws x y l).
Proof.
  intros Hx Hy Hws Hc HL HN Hsy.
  eexists _, _. split; [by apply (gradients_run s _ _ x y ws)|].
  split; [done|]. unfold Spec.gradients. split.
  - by rewrite length_fmap, length_seq.
  - intros l Hl. by rewrite list_lookup_fmap, lookup_seq_lt.
Qed.

Lemma gradients_backpropagation_witness :
  exists gs s',
    gradients 1 2 Examples.net1 = Ok (gs, s') /\
    gs = Spec.gradients [Examples.w1] Examples.x1 Examples.y1 /\
    length gs = 1%nat /\
    forall l, (l < 1)%nat ->
      gs !! l = Some (Spec.grad [Examples.w1] Examples.x1 Examples.y1 l).
Proof.
  apply (gradients_backpropagation Examples.net1 1 2
           Examples.x1 Examples.y1 [Examples.w1]).
  - reflexivity.
  - reflexivity.
  - repeat constructor.
  - simpl. split; reflexivity.
  - simpl. lia.
  - simpl. lia.
  - reflexivity.
Defined.

(** ** [predict] *)

(** C2: for a network with the weight matrices [ws], chaining from an
    input [x] of shape [(N, n_0)], [predict] returns the result of
    iterating [h_{l+1} = sigmoid(h_l × w_l)] from [h_0 = x] over the
    weights in order; for a single weight matrix [W] this is
    [sigmoid(x × W)], element by element. *)
Theorem predict_forward_pass (s : state) (input_matrix : loc)
    (x : ndarray float64) (ws : list (ndarray float64)) :
  heap s !! input_matrix = Some x ->
  points_to (heap s) (weights (self s)) ws ->
  compatible (ncols x) ws ->
  exists p s' out,
    predict input_matrix s = Ok (p, s') /\
    heap s' !! p = Some out /\
    out = Spec.h ws x (length ws) /\
    forall W, ws = [W] ->
      shape out = (nrows x, ncols W) /\
      forall i j, (i < nrows x)%nat -> (j < ncols W)%nat ->
        item out i j = Spec.sigmoid (item (Spec.matmul x W) i j).
Proof.
  intros Hx Hws Hc.
  destruct (predict_spec_run s input_matrix x ws Hx Hws Hc) as [Hrun Hout].
  eexists _, _, _. split; [exact Hrun|]. split; [exact Hout|].
  split; [done|]. intros W ->. split; [done|]. intros i j Hi Hj.
  unfold Spec.predict. simpl length.
  change (Spec.h [W] x 1) with (map_items Spec.sigmoid (Spec.matmul x W)).
  by rewrite item_map_items.
Qed.

Lemma predict_forward_pass_witness :
  exists p s' out,
    predict 1 Examples.net1 = Ok (p, s') /\
    heap s' !! p = Some out /\
    out = Spec.h [Examples.w1] Examples.x1 1 /\
    forall W, [Examples.w1] = [W] ->
      shape out = (nrows Examples.x1, ncols W) /\
      forall i j, (i < nrows Examples.x1)%nat -> (j < ncols W)%nat ->
        item out i j = Spec.sigmoid (item (Spec.matmul Examples.x1 W) i j).
Proof.
  apply (predict_forward_pass Examples.net1 1 Examples.x1 [Examples.w1]).
  - reflexivity.
  - repeat constructor.
  - simpl. split; reflexivity.
Defined.

(** C10: for a network that holds no weight matrix, [predict] returns
    its input itself: the reference it is given, with the store as it
    was, so that no sigmoid is applied. *)
Theorem predict_without_weights (s : state) (input_matrix : loc) :
  weights (self s) = [] ->
  predict input_matrix s
  = Ok (input_matrix, mk_state (mk_network [] [input_matrix]) (heap s)).
Proof.
  intros Hw. unfold predict.
  unfold bind at 1 2, set_activations at 1, get_weights at 1. simpl.
  rewrite Hw. simpl. unfold bind, ret, get_activations. simpl. done.
Qed.

Lemma predict_without_weights_witness :
  predict 0 Examples.net0
  = Ok (0%nat, mk_state (mk_network [] [0%nat]) (heap Examples.net0)).
Proof. apply (predict_without_weights Examples.net0 0). reflexivity. Defined.

(** ** [train] *)

Lemma descend_zip_other (lr : float64) (wls : list loc) (l : loc) :
  l ∉ wls ->
  forall (gs : list (ndarray float64)) (hp : store),
    foldl (fun hp gw => descend_one lr gw.1 gw.2 hp) hp (zip gs wls) !! l = hp !! l.
Proof.
  induction wls as [|l0 wls IH]; intros Hl gs hp.
  - by destruct gs.
  - apply not_elem_of_cons in Hl as [Hne Hl]. destruct gs as [|g gs]; [done|].
    simpl. rewrite IH by done. unfold descend_one.
    by rewrite list_lookup_alter_ne.
Qed.

Lemma descend_zip_distinct (lr : float64) (wls : list loc) :
  NoDup wls ->
  forall (gs : list (ndarray float64)) (hp : store) (k : nat) (l : loc)
         (g w : ndarray float64),
    wls !! k = Some l -> gs !! k = Some g -> hp !! l = Some w ->
    foldl (fun hp gw => descend_one lr gw.1 gw.2 hp) hp (zip gs wls) !! l
    = Some (Spec.minus w (scale lr g)).
Proof.
  induction 1 as [|l0 wls Hnotin Hnd IH]; intros gs hp k l g w Hl Hg Hw; [done|].
  destruct gs as [|g0 gs]; [done|]. simpl. destruct k as [|k]; simpl in Hl, Hg.
  - injection Hl as ->. injection Hg as ->.
    rewrite descend_zip_other by done. unfold descend_one.
    by rewrite list_lookup_alter_eq, Hw.
  - assert (l0 <> l) as Hne.
    { intros ->. apply Hnotin. by eapply list_elem_of_lookup_2. }
    apply (IH gs _ k); [done..|]. unfold descend_one.
    by rewrite list_lookup_alter_ne.
Qed.

Lemma training_step_distinct (s : state) (input_matrix output_matrix : loc)
    (lr : float64) :
  ready input_matrix output_matrix s ->
  NoDup (weights (self s)) ->
  weights_of (training_step input_matrix output_matrix lr s)
  = zip_with (fun w g => Spec.minus w (scale lr g))
      (weights_of s) (gradients_of input_matrix output_matrix s).
Proof.
  intros (x & y & ws & Hx & Hy & Hws & Hc & Hsy & HL) Hnd.
  unfold gradients_of, weights_of at 1 2 3. unfold training_step. simpl.
  rewrite (points_to_total _ _ _ Hws).
  rewrite (list_lookup_total_correct _ _ _ Hx), (list_lookup_total_correct _ _ _ Hy).
  pose proof (points_to_length _ _ _ Hws) as Hlen.
  assert (length (Spec.gradients ws x y) = length (weights (self s))) as Hglen.
  { unfold Spec.gradients. by rewrite length_fmap, length_seq. }
  unfold descend.
  rewrite <- (foldl_zip_seq (fun hp g l => descend_one lr g l hp)) by done.
  apply list_eq. intros k. rewrite list_lookup_fmap.
  destruct (weights (self s) !! k) as [l|] eqn:Hl; simpl.
  - destruct (points_to_lookup _ _ _ _ _ Hws Hl) as (w & Hw & Hlw).
    assert (k < length ws)%nat as Hk by by eapply lookup_lt_Some.
    destruct (lookup_lt_is_Some_2 (Spec.gradients ws x y) k) as [g Hg]; [lia|].
    symmetry. apply lookup_zip_with_Some. exists w, g.
    split; [|done]. f_equal.
    apply list_lookup_total_correct.
    apply (descend_zip_distinct lr _ Hnd _ _ k); [done..|].
    by apply lookup_app_l_Some.
  - symmetry. apply lookup_ge_None. apply lookup_ge_None in Hl.
    rewrite length_zip_with. lia.
Qed.

(** C3: [train] performs [iterations] repetitions of the step of the
    specification, each of which computes the gradients and then updates
    every weight matrix in the store, [w_l ← w_l − learning_rate × grad_l]
    (spelled out for weights that are distinct objects); with a
    non-positive [iterations] it changes nothing; and the arguments left
    out default to 10 iterations and the learning rate 0.1. *)
Theorem train_gradient_descent (s : state) (input_matrix output_matrix : loc)
    (iterations : option Z) (learning_rate : option float64) :
  ready input_matrix output_matrix s ->
  let n := default 10%Z iterations in
  let lr := default (Fin (1 / 10)) learning_rate in
  train input_matrix output_matrix iterations learning_rate s
  = Ok (tt, Nat.iter (Z.to_nat n)
              (training_step input_matrix output_matrix lr) s) /\
  (NoDup (weights (self s)) ->
   weights_of (training_step input_matrix output_matrix lr s)
   = zip_with (fun w g => Spec.minus w (scale lr g))
       (weights_of s) (gradients_of input_matrix output_matrix s)) /\
  (forall (k : Z) (s0 : state), (k <= 0)%Z ->
     train input_matrix output_matrix (Some k) learning_rate s0 = Ok (tt, s0)).
Proof.
  intros Hs n lr. split; [|split].
  - by apply train_run.
  - by apply training_step_distinct.
  - intros k s0 Hk. by apply train_no_iterations.
Qed.

Lemma train_gradient_descent_witness :
  train 1 2 None None Examples.net1
  = Ok (tt, Nat.iter 10 (training_step 1 2 (Fin (1 / 10))) Examples.net1) /\
  (NoDup (weights (self Examples.net1)) ->
   weights_of (training_step 1 2 (Fin (1 / 10)) Examples.net1)
   = zip_with (fun w g => Spec.minus w (scale (Fin (1 / 10)) g))
       (weights_of Examples.net1) (gradients_of 1 2 Examples.net1)) /\
  (forall (k : Z) (s0 : state), (k <= 0)%Z -> train 1 2 (Some k) None s0 = Ok (tt, s0)).
Proof.
  apply (train_gradient_descent Examples.net1 1 2 None None).
  apply net1_ready.
Defined.

(** ** The range of [predict] *)

(** C4, as stated, fails on the network without weight matrices, where
    [predict] returns its input, here the entry 2; and the entry of a
    network with weight matrices need not lie strictly inside the
    interval: on the input [+inf] the network of the weight 1 returns
    exactly 1. *)
Lemma predict_unit_interval_counterexample :
  ~ (forall p s' out,
       predict 0 Examples.net0 = Ok (p, s') ->
       heap s' !! p = Some out ->
       all_items in_unit_interval out) /\
  ~ (forall p s' out,
       predict 1 SaturationExamples.net1_inf = Ok (p, s') ->
       heap s' !! p = Some out ->
       all_items in_unit_interval out).
Proof.
  split; intros Hclaim.
  - specialize (Hclaim 0%nat _ Examples.x2
                  (predict_without_weights Examples.net0 0 eq_refl) eq_refl).
    specialize (Hclaim 0%nat 0%nat). simpl in Hclaim.
    assert (in_unit_interval (Fin 2)) as [_ Hlt] by (apply Hclaim; lia).
    lra.
  - destruct (predict_spec_run SaturationExamples.net1_inf 1
                SaturationExamples.x_inf [Examples.w1])
      as [Hrun Hout]; [reflexivity|repeat constructor|by split|].
    specialize (Hclaim _ _ _ Hrun Hout 0%nat 0%nat).
    assert (item (Spec.predict [Examples.w1] SaturationExamples.x_inf) 0 0 = Fin 1)
      as Hitem.
    { unfold Spec.predict. simpl length.
      change (Spec.h [Examples.w1] SaturationExamples.x_inf 1)
        with (map_items Spec.sigmoid
                (Spec.matmul SaturationExamples.x_inf Examples.w1)).
      rewrite item_map_items by (simpl; lia).
      unfold Spec.matmul. rewrite item_tabulate by (simpl; lia).
      unfold fsum. simpl. unfold item. simpl.
      unfold fmul, inf_times.
      destruct (Req_dec_T 1 0) as [?|_]; [lra|].
      destruct (Rlt_dec 0 1) as [_|?]; [|lra].
      unfold Spec.sigmoid, fadd, fneg, fexp, fdiv.
      destruct (Req_dec_T (1 + 0) 0) as [?|_]; [lra|]. f_equal; lra. }
    rewrite Hitem in Hclaim.
    assert (in_unit_interval (Fin 1)) as [_ Hlt] by (apply Hclaim; simpl; lia).
    lra.
Qed.

Lemma sigmoid_range (v : float64) : unit_or_nan (Spec.sigmoid v).
Proof.
  destruct v as [r| | |].
  - pose proof (sigmoid_unit r) as Hs.
    destruct (Spec.sigmoid (Fin r)) as [t| | |]; try done. simpl in *. lra.
  - unfold Spec.sigmoid, fneg, fexp, fadd, fdiv.
    destruct (Req_dec_T (1 + 0) 0) as [?|_]; [lra|].
    simpl. replace (1 / (1 + 0)) with 1 by lra. lra.
  - unfold Spec.sigmoid, fneg, fexp, fadd, fdiv. simpl. lra.
  - done.
Qed.

(** C4, amended: for a network with at least one weight matrix, whose
    weights chain from the input, every entry of the array [predict]
    returns is a NaN or lies in the closed interval from 0 to 1. *)
Theorem predict_closed_unit_interval (s : state) (input_matrix : loc)
    (x : ndarray float64) (ws : list (ndarray float64)) :
  heap s !! input_matrix = Some x ->
  points_to (heap s) (weights (self s)) ws ->
  compatible (ncols x) ws ->
  (1 <= length ws)%nat ->
  exists p s' out,
    predict input_matrix s = Ok (p, s') /\
    heap s' !! p = Some out /\
    all_items unit_or_nan out.
Proof.
  intros Hx Hws Hc HL.
  destruct (predict_spec_run s input_matrix x ws Hx Hws Hc) as [Hrun Hout].
  eexists _, _, _. split; [exact Hrun|]. split; [exact Hout|].
  unfold Spec.predict. replace (length ws) with (S (length ws - 1)) by lia.
  change (Spec.h ws x (S (length ws - 1)))
    with (map_items Spec.sigmoid
            (Spec.matmul (Spec.h ws x (length ws - 1)) (ws !!! (length ws - 1)%nat))).
  apply all_items_tabulate. intros i j _ _. apply sigmoid_range.
Qed.

Lemma predict_closed_unit_interval_witness :
  exists p s' out,
    predict 1 SaturationExamples.net1_inf = Ok (p, s') /\
    heap s' !! p = Some out /\
    all_items unit_or_nan out.
Proof.
  apply (predict_closed_unit_interval SaturationExamples.net1_inf 1
           SaturationExamples.x_inf [Examples.w1]).
  - reflexivity.
  - repeat constructor.
  - simpl. split; reflexivity.
  - simpl. lia.
Defined.

(** ** [random] *)

(** C5, as stated, fails: with no layer size and with a single one,
    [random] returns a network and raises nothing. *)
Lemma random_few_layers_counterexample :
  random unit Examples.zeros [] tt [] = Ok (mk_state (init []) [], tt) /\
  random unit Examples.zeros [5%Z] tt [] = Ok (mk_state (init []) [], tt) /\
  forall e, random unit Examples.zeros [5%Z] tt [] <> Raise e.
Proof. repeat split. intros e. discriminate. Qed.

(** C5, amended: given fewer than two layer sizes, [random] returns a
    network without weight matrices; it draws no sample, creates no
    array, and raises nothing. *)
Theorem random_few_layers (rng : Type) (random_sample : rng -> R * rng)
    (layer_units : list Z) (g : rng) (h : store) :
  (length layer_units < 2)%nat ->
  random rng random_sample layer_units g h = Ok (mk_state (init []) h, g).
Proof.
  intros Hlen. destruct layer_units as [|n [|n' layer_units]]; try done.
  simpl in Hlen. lia.
Qed.

Lemma random_few_layers_witness :
  random unit Examples.zeros [5%Z] tt [] = Ok (mk_state (init []) [], tt).
Proof.
  apply (random_few_layers unit Examples.zeros [5%Z] tt []). simpl. lia.
Defined.

(** ** [predict_zero_one] *)

Lemma flt_finite (a b : R) : flt (Fin a) (Fin b) = true <-> a < b.
Proof. unfold flt. destruct (Rlt_dec a b); split; (done || lra). Qed.

Lemma predict_zero_one_run (s s' : state) (input_matrix p : loc)
    (out : ndarray float64) :
  predict input_matrix s = Ok (p, s') ->
  heap s' !! p = Some out ->
  predict_zero_one input_matrix s
  = Ok (np_where_lt out (Fin (1 / 2)) 0%Z 1%Z, s').
Proof.
  intros Hrun Hout. unfold predict_zero_one.
  rewrite (run_bind _ _ _ _ _ Hrun). by rewrite (bind_deref_ok _ _ _ _ Hout).
Qed.

Lemma fge_finite (a b : R) : fge (Fin a) (Fin b) = true <-> b <= a.
Proof.
  unfold fge, flt. destruct (Rlt_dec a b); simpl; split; (done || lra).
Qed.

Lemma nan_network_output :
  item (Spec.predict [Examples.w1] SaturationExamples.x_nan) 0 0 = NaN.
Proof.
  unfold Spec.predict. simpl length.
  change (Spec.h [Examples.w1] SaturationExamples.x_nan 1)
    with (map_items Spec.sigmoid
            (Spec.matmul SaturationExamples.x_nan Examples.w1)).
  rewrite item_map_items by (simpl; lia).
  unfold Spec.matmul. rewrite item_tabulate by (simpl; lia).
  unfold fsum. simpl. unfold item. simpl. done.
Qed.

(** C6, as stated, fails on an entry of [predict] that is a NaN: for the
    network of the weight 1 on the input NaN, [predict] returns a NaN,
    which is not at least 0.5, and [predict_zero_one] returns 1. *)
Lemma predict_zero_one_threshold_counterexample :
  ~ (forall p s' out z,
       predict 1 SaturationExamples.net1_nan = Ok (p, s') ->
       heap s' !! p = Some out ->
       predict_zero_one 1 SaturationExamples.net1_nan = Ok (z, s') ->
       forall i j, (i < nrows out)%nat -> (j < ncols out)%nat ->
         (item z i j = 1%Z <-> fge (item out i j) (Fin (1 / 2)) = true)).
Proof.
  intros Hclaim.
  destruct (predict_spec_run SaturationExamples.net1_nan 1
              SaturationExamples.x_nan [Examples.w1])
    as [Hrun Hout]; [reflexivity|repeat constructor|by split|].
  specialize (Hclaim _ _ _ _ Hrun Hout
                (predict_zero_one_run _ _ _ _ _ Hrun Hout) 0%nat 0%nat).
  unfold np_where_lt in Hclaim.
  rewrite item_map_items, nan_network_output in Hclaim by (simpl; lia).
  assert (fge NaN (Fin (1 / 2)) = true) as Hge.
  { apply Hclaim; [simpl; lia..|]. reflexivity. }
  discriminate Hge.
Qed.

(** C6, amended: [predict_zero_one] returns an array of the shape of the
    array [predict] returns, whose entries are 0 or 1: an entry is 0
    exactly when the entry of [predict] is below 0.5, and 1 exactly when
    the entry of [predict] is at least 0.5 or is a NaN. *)
Theorem predict_zero_one_entries (s s' : state) (input_matrix p : loc)
    (out : ndarray float64) :
  predict input_matrix s = Ok (p, s') ->
  heap s' !! p = Some out ->
  exists z,
    predict_zero_one input_matrix s = Ok (z, s') /\
    shape z = shape out /\
    forall i j, (i < nrows out)%nat -> (j < ncols out)%nat ->
      (item z i j = 0%Z \/ item z i j = 1%Z) /\
      (item z i j = 0%Z <-> flt (item out i j) (Fin (1 / 2)) = true) /\
      (item z i j = 1%Z <->
         fge (item out i j) (Fin (1 / 2)) = true \/ is_nan (item out i j)).
Proof.
  intros Hrun Hout. eexists.
  split; [by apply (predict_zero_one_run _ _ _ _ _ Hrun Hout)|].
  split; [done|]. intros i j Hi Hj.
  unfold np_where_lt. rewrite item_map_items by done.
  destruct (item out i j) as [r| | |].
  - pose proof (flt_finite r (1 / 2)) as Hlt.
    pose proof (fge_finite r (1 / 2)) as Hge.
    destruct (flt (Fin r) (Fin (1 / 2))).
    + assert (r < 1 / 2) as Hr by by apply Hlt.
      split; [by left|]. split; [done|]. split; [done|].
      intros [Hr'|[]]. apply Hge in Hr'. lra.
    + assert (~ r < 1 / 2) as Hr by (intros Hr; by apply Hlt in Hr).
      split; [by right|]. split; [done|]. split; [|done].
      intros _. left. apply Hge. lra.
  - unfold flt, fge. simpl. split; [by right|]. split; [done|].
    split; [by left|done].
  - unfold flt, fge. simpl. split; [by left|]. split; [done|].
    split; [done|]. by intros [?|[]].
  - unfold flt, fge. simpl. split; [by right|]. split; [done|].
    split; [by right|done].
Qed.

Lemma predict_zero_one_entries_witness :
  exists z,
    predict_zero_one 1 SaturationExamples.net1_nan
    = Ok (z, after_predict SaturationExamples.net1_nan 1
               [sig_func (Spec.matmul SaturationExamples.x_nan Examples.w1)]) /\
    shape z = shape (sig_func (Spec.matmul SaturationExamples.x_nan Examples.w1)) /\
    forall i j,
      (i < nrows (sig_func (Spec.matmul SaturationExamples.x_nan Examples.w1)))%nat ->
      (j < ncols (sig_func (Spec.matmul SaturationExamples.x_nan Examples.w1)))%nat ->
      (item z i j = 0%Z \/ item z i j = 1%Z) /\
      (item z i j = 0%Z <->
         flt (item (sig_func (Spec.matmul SaturationExamples.x_nan Examples.w1)) i j)
           (Fin (1 / 2)) = true) /\
      (item z i j = 1%Z <->
         fge (item (sig_func (Spec.matmul SaturationExamples.x_nan Examples.w1)) i j)
           (Fin (1 / 2)) = true \/
         is_nan (item (sig_func (Spec.matmul SaturationExamples.x_nan Examples.w1)) i j)).
Proof.
  apply (predict_zero_one_entries SaturationExamples.net1_nan _ 1 2).
  - rewrite (predict_run _ _ SaturationExamples.x_nan [Examples.w1]).
    + reflexivity.
    + reflexivity.
    + repeat constructor.
  - reflexivity.
Defined.

(** ** Shapes under [train] *)

(** C7: once [train] has returned, the network holds the weight matrices
    it held before (the same references, so as many), and each of them
    has the numbers of rows and columns it had. *)
Theorem train_preserves_shapes (s s' : state) (input_matrix output_matrix : loc)
    (iterations : option Z) (learning_rate : option float64) :
  train input_matrix output_matrix iterations learning_rate s = Ok (tt, s') ->
  weights (self s') = weights (self s) /\
  length (weights (self s')) = length (weights (self s)) /\
  forall l w, l ∈ weights (self s) -> heap s !! l = Some w ->
    exists w', heap s' !! l = Some w' /\ nrows w' = nrows w /\ ncols w' = ncols w.
Proof.
  intros Hrun. destruct (preserves_train _ _ _ _ _ _ _ Hrun) as [Hw Hext].
  split; [done|]. split; [by rewrite Hw|].
  intros l w _ Hl. destruct (Hext l w Hl) as (w' & Hl' & Hs).
  injection Hs as Hr Hc. eauto.
Qed.

Lemma train_preserves_shapes_witness :
  let s' := Nat.iter 3 (training_step 1 2 (Fin (1 / 2))) Examples.net1 in
  train 1 2 (Some 3%Z) (Some (Fin (1 / 2))) Examples.net1 = Ok (tt, s') /\
  weights (self s') = weights (self Examples.net1) /\
  length (weights (self s')) = length (weights (self Examples.net1)) /\
  forall l w, l ∈ weights (self Examples.net1) -> heap Examples.net1 !! l = Some w ->
    exists w', heap s' !! l = Some w' /\ nrows w' = nrows w /\ ncols w' = ncols w.
Proof.
  intros s'.
  assert (train 1 2 (Some 3%Z) (Some (Fin (1 / 2))) Examples.net1 = Ok (tt, s'))
    as Hrun.
  { apply (train_run Examples.net1 1 2 (Some 3%Z) (Some (Fin (1 / 2)))).
    apply net1_ready. }
  split; [exact Hrun|].
  exact (train_preserves_shapes Examples.net1 s' 1 2 (Some 3%Z)
           (Some (Fin (1 / 2))) Hrun).
Defined.

(** ** The empty batch *)



(** ** Repeated calls of [predict] *)

(** C9: when [predict] has returned an array, a second call with the same
    input, made with the weights as they were, returns an array with the
    same contents, and the first one still has them. *)
Theorem predict_twice (s s1 : state) (input_matrix p1 : loc)
    (x : ndarray float64) (ws : list (ndarray float64)) :
  heap s !! input_matrix = Some x ->
  points_to (heap s) (weights (self s)) ws ->
  predict input_matrix s = Ok (p1, s1) ->
  exists out p2 s2,
    heap s1 !! p1 = Some out /\
    predict input_matrix s1 = Ok (p2, s2) /\
    heap s2 !! p2 = Some out /\
    heap s2 !! p1 = Some out.
Proof.
  intros Hx Hws Hrun.
  rewrite (predict_run _ _ x ws) in Hrun by done.
  destruct (forward x ws) as [hs|e] eqn:Hfwd; [|done].
  injection Hrun as <- <-.
  pose proof (predict_output s input_matrix x hs Hx) as Hout.
  set (s1 := after_predict s input_matrix hs) in *.
  assert (heap s1 !! input_matrix = Some x) as Hx1 by by apply lookup_app_l_Some.
  assert (points_to (heap s1) (weights (self s1)) ws) as Hws1
    by by apply points_to_app.
  exists (output_of x hs), (output_loc s1 input_matrix hs),
    (after_predict s1 input_matrix hs).
  split; [done|]. split.
  - rewrite (predict_run _ _ x ws) by done. by rewrite Hfwd.
  - split; [by apply predict_output|]. by apply lookup_app_l_Some.
Qed.

Lemma predict_twice_witness :
  exists out p2 s2,
    heap (after_predict Examples.net1 1 [sig_func (Spec.matmul Examples.x1 Examples.w1)])
      !! 3%nat = Some out /\
    predict 1 (after_predict Examples.net1 1
                 [sig_func (Spec.matmul Examples.x1 Examples.w1)]) = Ok (p2, s2) /\
    heap s2 !! p2 = Some out /\
    heap s2 !! 3%nat = Some out.
Proof.
  apply (predict_twice Examples.net1 _ 1 3 Examples.x1 [Examples.w1]).
  - reflexivity.
  - repeat constructor.
  - rewrite (predict_run _ _ Examples.x1 [Examples.w1]).
    + reflexivity.
    + reflexivity.
    + repeat constructor.
Defined.

(** * Further properties *)

(** ** Shape errors of [predict] *)

Lemma forward_mismatch (ws : list (ndarray float64)) (x : ndarray float64) :
  ~ compatible (ncols x) ws -> forward x ws = Raise ValueError.
Proof.
  revert x. induction ws as [|w ws IH]; intros x Hc; [by destruct Hc|].
  simpl. destruct (decide (ncols x = nrows w)) as [Hx|Hx].
  - rewrite np_dot_matmul by done.
    rewrite IH; [done|]. intros Hrest. apply Hc. by split.
  - by rewrite np_dot_mismatch.
Qed.

(** The weights of a valid network chain from the input exactly when
    [predict] returns; when they do not, it raises [ValueError]. *)
Theorem predict_shape_error (s : state) (input_matrix : loc)
    (x : ndarray float64) (ws : list (ndarray float64)) :
  heap s !! input_matrix = Some x ->
  points_to (heap s) (weights (self s)) ws ->
  (compatible (ncols x) ws -> exists p s', predict input_matrix s = Ok (p, s')) /\
  (~ compatible (ncols x) ws -> predict input_matrix s = Raise ValueError).
Proof.
  intros Hx Hws. rewrite (predict_run _ _ x ws) by done. split; intros Hc.
  - rewrite forward_spec by done. eauto.
  - by rewrite forward_mismatch.
Qed.

Lemma predict_shape_error_witness :
  (compatible (ncols MoreExamples.x_wide) [Examples.w1] ->
   exists p s', predict 1 MoreExamples.net1_wide = Ok (p, s')) /\
  (~ compatible (ncols MoreExamples.x_wide) [Examples.w1] ->
   predict 1 MoreExamples.net1_wide = Raise ValueError).
Proof.
  apply (predict_shape_error MoreExamples.net1_wide 1
           MoreExamples.x_wide [Examples.w1]).
  - reflexivity.
  - repeat constructor.
Defined.

(** ** The cache [predict] leaves *)

(** After [predict], [self.activations] holds one reference more than
    there are weight matrices: the input itself first, then the
    activations layer by layer, the last one being the array returned,
    of shape [(N, n_L)]. *)
Theorem predict_cache (s : state) (input_matrix : loc)
    (x : ndarray float64) (ws : list (ndarray float64)) :
  heap s !! input_matrix = Some x ->
  points_to (heap s) (weights (self s)) ws ->
  compatible (ncols x) ws ->
  exists p s' out,
    predict input_matrix s = Ok (p, s') /\
    heap s' !! p = Some out /\
    shape out = (nrows x, output_units (ncols x) ws) /\
    length (activations (self s')) = S (length ws) /\
    activations (self s') !! 0%nat = Some input_matrix /\
    last (activations (self s')) = Some p /\
    forall l, (l <= length ws)%nat ->
      exists hl, activations (self s') !! l = Some hl /\
                 heap s' !! hl = Some (Spec.h ws x l).
Proof.
  intros Hx Hws Hc.
  destruct (predict_spec_run s input_matrix x ws Hx Hws Hc) as [Hrun Hout].
  pose proof (after_predict_cached s input_matrix x ws Hx Hws) as [_ Hacts].
  eexists _, _, _. split; [exact Hrun|]. split; [exact Hout|].
  split; [|split; [|split; [|split]]].
  - unfold shape, Spec.predict. by rewrite nrows_h, output_units_h.
  - simpl. by rewrite length_seq, length_fmap, length_seq.
  - done.
  - simpl. unfold output_loc.
    destruct (seq (length (heap s)) (length (Spec.h ws x <$> seq 1 (length ws))))
      as [|l0 ls]; [done|].
    rewrite last_cons. by destruct (last (l0 :: ls)).
  - intros l Hl.
    destruct (Forall2_lookup_r _ _ _ _ _ Hacts (activations_lookup ws x l Hl))
      as (hl & Hhl & Hv).
    eauto.
Qed.

Lemma predict_cache_witness :
  exists p s' out,
    predict 1 Examples.net1 = Ok (p, s') /\
    heap s' !! p = Some out /\
    shape out = (nrows Examples.x1, output_units (ncols Examples.x1) [Examples.w1]) /\
    length (activations (self s')) = 2%nat /\
    activations (self s') !! 0%nat = Some 1%nat /\
    last (activations (self s')) = Some p /\
    forall l, (l <= 1)%nat ->
      exists hl, activations (self s') !! l = Some hl /\
                 heap s' !! hl = Some (Spec.h [Examples.w1] Examples.x1 l).
Proof.
  apply (predict_cache Examples.net1 1 Examples.x1 [Examples.w1]).
  - reflexivity.
  - repeat constructor.
  - simpl. split; reflexivity.
Defined.

(** ** What [predict] and [gradients] leave alone *)

Lemma allocates_only_ret {A} (a : A) : allocates_only (ret a).
Proof. intros s a' s' [= <- <-]. split; [done|]. exists []. by rewrite app_nil_r. Qed.

Lemma allocates_only_reads {A} (m : M A) : reads_only m -> allocates_only m.
Proof.
  intros Hm s a s' Hrun. rewrite (Hm _ _ _ Hrun).
  split; [done|]. exists []. by rewrite app_nil_r.
Qed.

Lemma reads_only_ret {A} (a : A) : reads_only (ret a).
Proof. by intros s a' s' [= <- <-]. Qed.

Lemma reads_only_lift {A} (r : Res A) : reads_only (lift r).
Proof. intros s a s'. unfold lift. destruct r; [|done]. by intros [= <- <-]. Qed.

Lemma reads_only_deref (l : loc) : reads_only (deref l).
Proof.
  intros s a s'. unfold deref. destruct (heap s !! l); [|done]. by intros [= <- <-].
Qed.

Lemma reads_only_get_weights : reads_only get_weights.
Proof. by intros s a s' [= <- <-]. Qed.

Lemma reads_only_get_activations : reads_only get_activations.
Proof. by intros s a s' [= <- <-]. Qed.

Lemma reads_only_bind {A B} (m : M A) (k : A -> M B) :
  reads_only m -> (forall a, reads_only (k a)) -> reads_only (bind m k).
Proof.
  intros Hm Hk s b s' Hrun.
  apply bind_inv in Hrun as (a & s1 & Hm1 & Hk1).
  apply Hm in Hm1 as ->. by apply Hk in Hk1.
Qed.

Lemma reads_only_elim {A} (m : M A) (s s' : state) (a : A) :
  m s = Ok (a, s') -> reads_only m -> s' = s.
Proof. intros Hrun Hm. by eapply Hm. Qed.

Create HintDb reads.

#[global] Hint Resolve reads_only_ret reads_only_lift reads_only_deref
  reads_only_get_weights reads_only_get_activations : reads.

Ltac reads_steps :=
  repeat first
    [ solve [auto with reads]
    | apply reads_only_bind; [|intros ?] ].

Lemma reads_only_back_propagate_step (layer : Z) (g_last : ndarray float64)
    (grad : list (ndarray float64)) :
  reads_only (back_propagate_step layer g_last grad).
Proof. unfold back_propagate_step. reads_steps. Qed.

Lemma reads_only_back_propagate (k : nat) (g_last : ndarray float64)
    (grad : list (ndarray float64)) :
  reads_only (back_propagate k g_last grad).
Proof.
  revert g_last grad. induction k as [|k IH]; intros g_last grad; simpl.
  - apply reads_only_ret.
  - apply reads_only_bind; [apply reads_only_back_propagate_step|].
    intros r. apply IH.
Qed.

#[global] Hint Resolve reads_only_back_propagate : reads.

Lemma allocates_only_alloc (m : ndarray float64) : allocates_only (alloc m).
Proof. intros s a s' [= <- <-]. split; [done|]. by exists [m]. Qed.

Lemma allocates_only_set_activations (acts : list loc) :
  allocates_only (set_activations acts).
Proof.
  intros s a s' [= <- <-]. split; [done|]. exists []. by rewrite app_nil_r.
Qed.

Lemma allocates_only_bind {A B} (m : M A) (k : A -> M B) :
  allocates_only m -> (forall a, allocates_only (k a)) -> allocates_only (bind m k).
Proof.
  intros Hm Hk s b s' Hrun.
  apply bind_inv in Hrun as (a & s1 & Hm1 & Hk1).
  destruct (Hm _ _ _ Hm1) as [Hw1 [hs1 Hh1]].
  destruct (Hk _ _ _ _ Hk1) as [Hw2 [hs2 Hh2]].
  split; [congruence|]. exists (hs1 ++ hs2).
  by rewrite Hh2, Hh1, (assoc_L (++)).
Qed.

Lemma allocates_only_for_each {A} (l : list A) (body : A -> M unit) :
  (forall a, allocates_only (body a)) -> allocates_only (for_each l body).
Proof.
  intros Hbody. induction l as [|a l IH]; simpl.
  - apply allocates_only_ret.
  - apply allocates_only_bind; [apply Hbody|]. intros _. apply IH.
Qed.

Lemma allocates_only_predict_step (weight : loc) :
  allocates_only (predict_step weight).
Proof.
  unfold predict_step.
  repeat first
    [ apply allocates_only_alloc
    | apply allocates_only_set_activations
    | apply allocates_only_bind; [|intros ?]
    | apply allocates_only_reads; solve [auto with reads] ].
Qed.

Lemma allocates_only_predict (input_matrix : loc) :
  allocates_only (predict input_matrix).
Proof.
  unfold predict.
  apply allocates_only_bind; [apply allocates_only_set_activations|]. intros _.
  apply allocates_only_bind; [apply allocates_only_reads; auto with reads|].
  intros ws.
  apply allocates_only_bind.
  { apply allocates_only_for_each. apply allocates_only_predict_step. }
  intros _. apply allocates_only_reads. reads_steps.
Qed.

(** Whatever the state and the input, a call of [predict] that returns
    has left [self.weights] as it was and has changed no array that
    existed: the weights and the input are not written to. *)
Theorem predict_changes_no_array (s s' : state) (input_matrix p : loc) :
  predict input_matrix s = Ok (p, s') ->
  weights (self s') = weights (self s) /\
  (exists hs, heap s' = heap s ++ hs) /\
  forall l v, heap s !! l = Some v -> heap s' !! l = Some v.
Proof.
  intros Hrun.
  destruct (allocates_only_predict _ _ _ _ Hrun) as [Hw [hs Hh]].
  split; [done|]. split; [by exists hs|].
  intros l v Hl. rewrite Hh. by apply lookup_app_l_Some.
Qed.

Lemma predict_changes_no_array_witness :
  weights (self (after_predict Examples.net1 1
                   [sig_func (Spec.matmul Examples.x1 Examples.w1)]))
  = weights (self Examples.net1) /\
  (exists hs,
     heap (after_predict Examples.net1 1
             [sig_func (Spec.matmul Examples.x1 Examples.w1)])
     = heap Examples.net1 ++ hs) /\
  forall l v, heap Examples.net1 !! l = Some v ->
    heap (after_predict Examples.net1 1
            [sig_func (Spec.matmul Examples.x1 Examples.w1)]) !! l = Some v.
Proof.
  apply (predict_changes_no_array Examples.net1 _ 1 3).
  rewrite (predict_run _ _ Examples.x1 [Examples.w1]).
  - reflexivity.
  - reflexivity.
  - repeat constructor.
Defined.

Lemma gradients_run_state (s s' : state)
    (input_matrix output_matrix : loc) (gs : list (ndarray float64)) :
  gradients input_matrix output_matrix s = Ok (gs, s') ->
  exists p, predict input_matrix s = Ok (p, s').
Proof.
  intros Hrun. unfold gradients in Hrun.
  apply bind_inv in Hrun as (ws & s0 & Hws & Hrun).
  injection Hws as <- <-.
  apply bind_inv in Hrun as (p & s1 & Hp & Hrest).
  apply reads_only_elim in Hrest as ->; [|reads_steps].
  by exists p.
Qed.

Lemma allocates_only_gradients (input_matrix output_matrix : loc) :
  allocates_only (gradients input_matrix output_matrix).
Proof.
  intros s gs s' Hrun. apply gradients_run_state in Hrun as [p Hp].
  by apply (allocates_only_predict _ _ _ _ Hp).
Qed.

(** A call of [gradients] that returns has changed the state exactly as
    the call of [predict] it starts with: the same cache, the same
    store, and so no array that existed is written to. *)
Theorem gradients_state_of_predict (s s' : state)
    (input_matrix output_matrix : loc) (gs : list (ndarray float64)) :
  gradients input_matrix output_matrix s = Ok (gs, s') ->
  (exists p, predict input_matrix s = Ok (p, s')) /\
  weights (self s') = weights (self s) /\
  forall l v, heap s !! l = Some v -> heap s' !! l = Some v.
Proof.
  intros Hrun. split; [by eapply gradients_run_state|].
  destruct (allocates_only_gradients _ _ _ _ _ Hrun) as [Hw [hs Hh]].
  split; [done|]. intros l v Hl. rewrite Hh. by apply lookup_app_l_Some.
Qed.

Lemma gradients_state_of_predict_witness :
  let s' := after_predict Examples.net1 1
              (Spec.h [Examples.w1] Examples.x1 <$> seq 1 1) in
  (exists p, predict 1 Examples.net1 = Ok (p, s')) /\
  weights (self s') = weights (self Examples.net1) /\
  forall l v, heap Examples.net1 !! l = Some v -> heap s' !! l = Some v.
Proof.
  intros s'.
  apply (gradients_state_of_predict Examples.net1 s' 1 2
           (Spec.gradients [Examples.w1] Examples.x1 Examples.y1)).
  apply (gradients_run Examples.net1 1 2 Examples.x1 Examples.y1 [Examples.w1]).
  - reflexivity.
  - reflexivity.
  - repeat constructor.
  - simpl. split; reflexivity.
  - reflexivity.
  - simpl. lia.
Defined.

(** ** Errors of [gradients] *)

Lemma elementwise_mismatch (f : float64 -> float64 -> float64)
    (a b : ndarray float64) :
  broadcast_shape (shape a) (shape b) = None ->
  elementwise f a b = Raise ValueError.
Proof. intros Hs. unfold elementwise. by rewrite Hs. Qed.

Lemma elementwise_broadcast (f : float64 -> float64 -> float64)
    (a b : ndarray float64) (r c : nat) :
  broadcast_shape (shape a) (shape b) = Some (r, c) ->
  exists m, elementwise f a b = Ok m /\ shape m = (r, c).
Proof. intros Hs. unfold elementwise. rewrite Hs. eauto. Qed.

Lemma gradients_run_without_weights (s : state) (input_matrix output_matrix : loc)
    (x y : ndarray float64) :
  weights (self s) = [] ->
  heap s !! input_matrix = Some x ->
  heap s !! output_matrix = Some y ->
  gradients input_matrix output_matrix s = Raise (error_without_weights x y).
Proof.
  intros Hw Hx Hy. unfold gradients.
  unfold bind at 1, get_weights at 1. rewrite Hw.
  rewrite (run_bind _ _ _ _ _ (predict_without_weights s input_matrix Hw)).
  erewrite bind_deref_ok by exact Hx.
  erewrite bind_deref_ok by exact Hy.
  unfold error_without_weights, np_subtract.
  destruct (broadcast_shape (shape x) (shape y)) as [[r c]|] eqn:Hs.
  - destruct (elementwise_broadcast fsub x y r c Hs) as (m & Hm & _).
    erewrite bind_lift_ok by exact Hm.
    unfold bind at 1, get_activations at 1. simpl.
    erewrite bind_lift_ok by apply (py_index_minus_one [] input_matrix).
    simpl. erewrite bind_deref_ok by exact Hx.
    apply run_bind_raise, run_lift_raise, py_index_empty.
  - apply run_bind_raise, run_lift_raise. by apply elementwise_mismatch.
Qed.

(** On a network that holds no weight matrix, [gradients] always raises:
    [IndexError] from [self.weights[-1]] when the input and the target
    can be subtracted, and the [ValueError] of the subtraction
    otherwise. *)
Theorem gradients_without_weights (s : state) (input_matrix output_matrix : loc)
    (x y : ndarray float64) :
  weights (self s) = [] ->
  heap s !! input_matrix = Some x ->
  heap s !! output_matrix = Some y ->
  gradients input_matrix output_matrix s = Raise (error_without_weights x y).
Proof. apply gradients_run_without_weights. Qed.

Lemma gradients_without_weights_witness :
  gradients 0 0 Examples.net0
  = Raise (error_without_weights Examples.x2 Examples.x2).
Proof.
  apply (gradients_without_weights Examples.net0 0 0 Examples.x2 Examples.x2);
    reflexivity.
Defined.

(** When the weights chain from the input but the shape of the target
    cannot be broadcast against the shape [(N, n_L)] of the output,
    [gradients] raises [ValueError]. *)
Theorem gradients_target_mismatch (s : state) (input_matrix output_matrix : loc)
    (x y : ndarray float64) (ws : list (ndarray float64)) :
  heap s !! input_matrix = Some x ->
  heap s !! output_matrix = Some y ->
  points_to (heap s) (weights (self s)) ws ->
  compatible (ncols x) ws ->
  broadcast_shape (nrows x, output_units (ncols x) ws) (shape y) = None ->
  gradients input_matrix output_matrix s = Raise ValueError.
Proof.
  intros Hx Hy Hws Hc Hs.
  destruct (predict_spec_run s input_matrix x ws Hx Hws Hc) as [Hrun Hout].
  unfold gradients. unfold bind at 1, get_weights at 1.
  rewrite (run_bind _ _ _ _ _ Hrun).
  rewrite (bind_deref_ok _ _ _ _ Hout).
  erewrite bind_deref_ok by (by apply lookup_app_l_Some).
  apply run_bind_raise, run_lift_raise, elementwise_mismatch.
  unfold shape at 1, Spec.predict. by rewrite nrows_h, output_units_h.
Qed.

Lemma gradients_target_mismatch_witness :
  gradients 1 2 MoreExamples.net1_target_tall = Raise ValueError.
Proof.
  apply (gradients_target_mismatch MoreExamples.net1_target_tall 1 2
           MoreExamples.x_two MoreExamples.y_three [Examples.w1]).
  - reflexivity.
  - reflexivity.
  - repeat constructor.
  - simpl. split; reflexivity.
  - reflexivity.
Defined.

(** ** The shapes of the gradients *)

(** Each gradient [gradients] returns has the shape of the weight matrix
    at its position, for an empty batch too. *)
Theorem gradients_shapes (s : state) (input_matrix output_matrix : loc)
    (x y : ndarray float64) (ws : list (ndarray float64)) :
  heap s !! input_matrix = Some x ->
  heap s !! output_matrix = Some y ->
  points_to (heap s) (weights (self s)) ws ->
  compatible (ncols x) ws ->
  (1 <= length ws)%nat ->
  shape y = (nrows x, output_units (ncols x) ws) ->
  exists gs s',
    gradients input_matrix output_matrix s = Ok (gs, s') /\
    Forall2 (fun g w => shape g = shape w) gs ws.
Proof.
  intros Hx Hy Hws Hc HL Hsy.
  eexists _, _. split; [by apply (gradients_run s _ _ x y ws)|].
  apply Forall2_same_length_lookup. split.
  - unfold Spec.gradients. by rewrite length_fmap, length_seq.
  - intros l g w Hg Hw. unfold Spec.gradients in Hg.
    rewrite list_lookup_fmap in Hg.
    destruct (seq 0 (length ws) !! l) as [l'|] eqn:Hl; [|done].
    apply lookup_seq in Hl as [-> Hl]. injection Hg as <-.
    rewrite shape_grad by done. f_equal. by apply list_lookup_total_correct.
Qed.

Lemma gradients_shapes_witness :
  exists gs s',
    gradients 1 2 Examples.net1_empty = Ok (gs, s') /\
    Forall2 (fun g w => shape g = shape w) gs [Examples.w1].
Proof.
  apply (gradients_shapes Examples.net1_empty 1 2
           Examples.x0 Examples.y0 [Examples.w1]).
  - reflexivity.
  - reflexivity.
  - repeat constructor.
  - simpl. split; reflexivity.
  - simpl. lia.
  - reflexivity.
Defined.

(** ** Errors of [train] *)

Lemma train_first_iteration_raises (s : state) (input_matrix output_matrix : loc)
    (iterations : Z) (learning_rate : option float64) (e : exn) :
  (1 <= iterations)%Z ->
  train_iteration input_matrix output_matrix
    (default default_learning_rate learning_rate) s = Raise e ->
  train input_matrix output_matrix (Some iterations) learning_rate s = Raise e.
Proof.
  intros Hn Hit. unfold train, py_range. simpl default.
  replace (Z.to_nat (iterations - 0)) with (S (Z.to_nat (iterations - 1))) by lia.
  simpl. by apply run_bind_raise.
Qed.

(** With at least one iteration, [train] raises the exception the first
    call of [gradients] raises; in particular it raises on a network that
    holds no weight matrix. *)
Theorem train_raises_with_gradients (s : state) (input_matrix output_matrix : loc)
    (iterations : Z) (learning_rate : option float64) (e : exn) :
  (1 <= iterations)%Z ->
  gradients input_matrix output_matrix s = Raise e ->
  train input_matrix output_matrix (Some iterations) learning_rate s = Raise e.
Proof.
  intros Hn Hg. apply train_first_iteration_raises; [done|].
  unfold train_iteration. by apply run_bind_raise.
Qed.

Lemma train_raises_with_gradients_witness :
  train 0 0 (Some 5%Z) None Examples.net0
  = Raise (error_without_weights Examples.x2 Examples.x2).
Proof.
  apply (train_raises_with_gradients Examples.net0 0 0 5 None).
  - lia.
  - apply (gradients_run_without_weights Examples.net0 0 0 Examples.x2 Examples.x2);
      reflexivity.
Defined.

(** ** A target broadcast against a single output unit *)

Lemma broadcast_dim_one_l (c : nat) : broadcast_dim 1 c = Some c.
Proof.
  unfold broadcast_dim. destruct (Nat.eqb_spec 1 c) as [->|_]; [done|].
  by rewrite Nat.eqb_refl.
Qed.

Lemma broadcast_dim_one_r (c : nat) : broadcast_dim c 1 = Some c.
Proof.
  unfold broadcast_dim. destruct (Nat.eqb_spec c 1) as [->|_]; [done|].
  done.
Qed.

Section BroadcastTarget.

Variable s : state.
Variable input_matrix output_matrix wl : loc.
Variable x y w : ndarray float64.

Hypothesis Hweights : weights (self s) = [wl].
Hypothesis Hw : heap s !! wl = Some w.
Hypothesis Hx : heap s !! input_matrix = Some x.
Hypothesis Hy : heap s !! output_matrix = Some y.
Hypothesis Hxw : ncols x = nrows w.
Hypothesis Hone : ncols w = 1%nat.
Hypothesis Hrows : nrows y = nrows x.

Lemma gradients_run_broadcast :
  exists g,
    gradients input_matrix output_matrix s
    = Ok ([g], after_predict s input_matrix (Spec.h [w] x <$> seq 1 1)) /\
    shape g = (nrows w, ncols y).
Proof using Hweights Hw Hx Hy Hxw Hone Hrows.
  assert (points_to (heap s) (weights (self s)) [w]) as Hws.
  { rewrite Hweights. by repeat constructor. }
  assert (compatible (ncols x) [w]) as Hc by done.
  destruct (predict_spec_run s input_matrix x [w] Hx Hws Hc) as [Hrun Hout].
  pose proof (after_predict_cached s input_matrix x [w] Hx Hws) as [Hws' Hacts].
  simpl length in *.
  set (s1 := after_predict s input_matrix (Spec.h [w] x <$> seq 1 1)) in *.
  assert (heap s1 !! input_matrix = Some x) as Hx1 by by apply lookup_app_l_Some.
  assert (heap s1 !! output_matrix = Some y) as Hy1 by by apply lookup_app_l_Some.
  assert (broadcast_shape (shape (Spec.predict [w] x)) (shape y)
          = Some (nrows x, ncols y)) as Hb1.
  { unfold broadcast_shape. simpl. rewrite Hrows, broadcast_dim_same.
    change (ncols (Spec.h [w] x 1)) with (ncols w).
    by rewrite Hone, broadcast_dim_one_l. }
  destruct (elementwise_broadcast fsub _ _ _ _ Hb1) as (err & Herr & Hserr).
  injection Hserr as Herr_r Herr_c.
  assert (broadcast_shape (shape err)
            (shape (map_items Spec.sigmoid' (Spec.matmul x w)))
          = Some (nrows x, ncols y)) as Hb2.
  { unfold broadcast_shape. simpl. rewrite Herr_r, Herr_c, broadcast_dim_same.
    change (ncols (Spec.matmul x w)) with (ncols w).
    by rewrite Hone, broadcast_dim_one_r. }
  destruct (elementwise_broadcast fmul _ _ _ _ Hb2) as (m & Hm & Hsm).
  injection Hsm as Hm_r Hm_c.
  eexists. split.
  - unfold gradients. unfold bind at 1, get_weights at 1.
    rewrite Hweights. simpl length.
    rewrite (run_bind _ _ _ _ _ Hrun).
    rewrite (bind_deref_ok _ _ _ _ Hout).
    rewrite (bind_deref_ok _ _ _ _ Hy1).
    erewrite bind_lift_ok by exact Herr.
    unfold bind at 1, get_activations at 1.
    change (Z.of_nat 1 - 1)%Z with (Z.of_nat 0).
    rewrite (run_index_deref _ _ 0 _ _ _ Hacts eq_refl).
    rewrite (run_index_deref [wl] [w] 0 w); [|by rewrite <- Hweights|done].
    erewrite bind_lift_ok by (by apply np_dot_matmul).
    erewrite bind_lift_ok by apply sig_func_g_sigmoid'.
    erewrite bind_lift_ok by exact Hm.
    rewrite (run_index_deref _ _ 0 _ _ _ Hacts eq_refl).
    erewrite bind_lift_ok.
    2:{ apply np_dot_matmul. by rewrite <- Hm_r. }
    simpl Z.to_nat. simpl back_propagate. unfold bind at 1, ret at 1.
    rewrite (bind_deref_ok _ _ _ _ Hx1). unfold ret. simpl. reflexivity.
  - unfold shape. simpl. by rewrite Hxw, Hm_c.
Qed.

Lemma train_iteration_broadcast (learning_rate : float64) :
  ncols y <> 1%nat ->
  train_iteration input_matrix output_matrix learning_rate s = Raise ValueError.
Proof using Hweights Hw Hx Hy Hxw Hone Hrows.
  intros Hcols. destruct gradients_run_broadcast as (g & Hg & Hsg).
  unfold train_iteration. rewrite (run_bind _ _ _ _ _ Hg).
  unfold bind at 1, get_weights at 1. simpl weights. rewrite Hweights.
  simpl. apply run_bind_raise. unfold update_weight. simpl.
  erewrite bind_deref_ok by (by apply lookup_app_l_Some).
  apply run_bind_raise, run_lift_raise.
  unfold np_isub. injection Hsg as Hg_r Hg_c.
  unfold broadcast_shape, shape. simpl.
  rewrite Hg_r, Hg_c, Hone, broadcast_dim_same, broadcast_dim_one_l.
  rewrite decide_False; [done|]. intros [= Heq]. done.
Qed.

End BroadcastTarget.

(** A network of one weight matrix with a single output unit accepts in
    [gradients] a target of any number of columns, which NumPy
    broadcasts: the gradient returned then has as many columns as the
    target, not as the weight matrix, and with a number of columns other
    than one [train] raises [ValueError] when it updates the weight. *)
Theorem gradients_broadcast_target (s : state)
    (input_matrix output_matrix wl : loc) (x y w : ndarray float64) :
  weights (self s) = [wl] ->
  heap s !! wl = Some w ->
  heap s !! input_matrix = Some x ->
  heap s !! output_matrix = Some y ->
  ncols x = nrows w ->
  ncols w = 1%nat ->
  nrows y = nrows x ->
  (exists g s',
     gradients input_matrix output_matrix s = Ok ([g], s') /\
     shape g = (nrows w, ncols y)) /\
  (ncols y <> 1%nat ->
   forall iterations learning_rate, (1 <= iterations)%Z ->
     train input_matrix output_matrix (Some iterations) learning_rate s
     = Raise ValueError).
Proof.
  intros Hweights Hw Hx Hy Hxw Hone Hrows. split.
  - destruct (gradients_run_broadcast s input_matrix output_matrix wl x y w)
      as (g & Hg & Hsg); try done.
    eauto.
  - intros Hcols iterations learning_rate Hn.
    apply train_first_iteration_raises; [done|].
    by apply (train_iteration_broadcast s input_matrix output_matrix wl x y w).
Qed.

Lemma gradients_broadcast_target_witness :
  (exists g s',
     gradients 1 2 MoreExamples.net1_target_wide = Ok ([g], s') /\
     shape g = (nrows Examples.w1, ncols MoreExamples.y_wide)) /\
  (ncols MoreExamples.y_wide <> 1%nat ->
   forall iterations learning_rate, (1 <= iterations)%Z ->
     train 1 2 (Some iterations) learning_rate MoreExamples.net1_target_wide
     = Raise ValueError).
Proof.
  apply (gradients_broadcast_target MoreExamples.net1_target_wide 1 2 0
           Examples.x1 MoreExamples.y_wide Examples.w1);
    reflexivity.
Defined.

(** ** What [train] leaves alone *)

Lemma updates_weights_only_allocates {A} (m : M A) :
  allocates_only m -> updates_weights_only m.
Proof.
  intros Hm s a s' Hrun. destruct (Hm _ _ _ Hrun) as [Hw [hs Hh]].
  split; [done|]. intros l v _ Hl. rewrite Hh. by apply lookup_app_l_Some.
Qed.

Lemma updates_weights_only_bind {A B} (m : M A) (k : A -> M B) :
  updates_weights_only m -> (forall a, updates_weights_only (k a)) ->
  updates_weights_only (bind m k).
Proof.
  intros Hm Hk s b s' Hrun.
  apply bind_inv in Hrun as (a & s1 & Hm1 & Hk1).
  destruct (Hm _ _ _ Hm1) as [Hw1 Hh1].
  destruct (Hk _ _ _ _ Hk1) as [Hw2 Hh2].
  split; [congruence|]. intros l v Hl Hv.
  apply Hh2; [by rewrite Hw1|]. by apply Hh1.
Qed.

Lemma updates_weights_only_for_each {A} (l : list A) (body : A -> M unit) :
  (forall a, updates_weights_only (body a)) ->
  updates_weights_only (for_each l body).
Proof.
  intros Hbody. induction l as [|a l IH]; simpl.
  - apply updates_weights_only_allocates, allocates_only_ret.
  - apply updates_weights_only_bind; [apply Hbody|]. intros _. apply IH.
Qed.

Lemma update_weights_confined (lr : float64) (gws : list (ndarray float64 * loc)) :
  forall s s' : state,
    Forall (fun gw => gw.2 ∈ weights (self s)) gws ->
    for_each gws (update_weight lr) s = Ok (tt, s') ->
    weights (self s') = weights (self s) /\
    forall l v, l ∉ weights (self s) -> heap s !! l = Some v ->
      heap s' !! l = Some v.
Proof.
  induction gws as [|[g wl] gws IH]; intros s s' Hin Hrun.
  - injection Hrun as <-. done.
  - apply Forall_cons in Hin as [Hwl Hin]. simpl in Hwl.
    simpl in Hrun. apply bind_inv in Hrun as ([] & s1 & Hup & Hrest).
    unfold update_weight in Hup. simpl in Hup.
    apply bind_inv in Hup as (w & s2 & Hd & Hup).
    apply reads_only_deref in Hd as ->.
    apply bind_inv in Hup as (w' & s3 & Hsub & Hup).
    apply reads_only_lift in Hsub as ->.
    unfold assign in Hup. destruct (heap s !! wl) as [w0|] eqn:Hw0; [|done].
    injection Hup as <-.
    destruct (IH (mk_state (self s) (<[wl:=w']> (heap s))) s' Hin Hrest)
      as [Hw Hh].
    simpl in Hw, Hh.
    split; [done|]. intros l v Hl Hv. apply Hh; [done|].
    rewrite list_lookup_insert_ne; [done|]. intros ->. done.
Qed.

Lemma updates_weights_only_train_iteration (input_matrix output_matrix : loc)
    (learning_rate : float64) :
  updates_weights_only (train_iteration input_matrix output_matrix learning_rate).
Proof.
  intros s a s' Hrun. unfold train_iteration in Hrun.
  apply bind_inv in Hrun as (gs & s1 & Hg & Hrun).
  destruct (allocates_only_gradients _ _ _ _ _ Hg) as [Hw1 [hs Hh1]].
  apply bind_inv in Hrun as (ws & s2 & Hws & Hrun).
  injection Hws as <- <-. destruct a.
  apply update_weights_confined in Hrun as [Hw2 Hh2].
  - split; [congruence|]. intros l v Hl Hv.
    apply Hh2; [by rewrite Hw1|]. rewrite Hh1. by apply lookup_app_l_Some.
  - apply Forall_forall. intros [g wl] Hin. simpl.
    by apply elem_of_zip_r in Hin.
Qed.

(** A call of [train] that returns has written only to the arrays that
    [self.weights] refers to: every other array of the store, the input
    and the target among them unless they are weight matrices themselves,
    is as it was. *)
Theorem train_writes_weights_only (s s' : state)
    (input_matrix output_matrix : loc)
    (iterations : option Z) (learning_rate : option float64) :
  train input_matrix output_matrix iterations learning_rate s = Ok (tt, s') ->
  forall l v, l ∉ weights (self s) -> heap s !! l = Some v ->
    heap s' !! l = Some v.
Proof.
  intros Hrun. unfold train in Hrun.
  eapply updates_weights_only_for_each in Hrun as [_ Hh]; [exact Hh|].
  intros _. apply updates_weights_only_train_iteration.
Qed.

Lemma train_writes_weights_only_witness :
  let s' := Nat.iter 2 (training_step 1 2 (Fin (1 / 10))) Examples.net1 in
  train 1 2 (Some 2%Z) None Examples.net1 = Ok (tt, s') /\
  forall l v, l ∉ weights (self Examples.net1) ->
    heap Examples.net1 !! l = Some v -> heap s' !! l = Some v.
Proof.
  intros s'.
  assert (train 1 2 (Some 2%Z) None Examples.net1 = Ok (tt, s')) as Hrun.
  { apply (train_run Examples.net1 1 2 (Some 2%Z) None). apply net1_ready. }
  split; [exact Hrun|].
  exact (train_writes_weights_only Examples.net1 s' 1 2 (Some 2%Z) None Hrun).
Defined.

(** ** The sigmoid and its derivative *)

Lemma sigmoid_special :
  Spec.sigmoid PInf = Fin 1 /\ Spec.sigmoid NInf = Fin 0 /\ Spec.sigmoid NaN = NaN.
Proof.
  unfold Spec.sigmoid, fneg, fexp, fadd, fdiv. repeat split.
  destruct (Req_dec_T (1 + 0) 0) as [Heq|_]; [lra|]. f_equal. lra.
Qed.

Lemma sig_func_entry_sigmoid (v : float64) : sig_func_entry v (Spec.sigmoid v).
Proof.
  destruct v as [r| | |]; simpl.
  - pose proof (sigmoid_unit r) as Hs.
    destruct (Spec.sigmoid (Fin r)) as [t| | |]; try done. simpl in *. lra.
  - apply sigmoid_special.
  - apply sigmoid_special.
  - apply sigmoid_special.
Qed.

(** [sig_func] keeps the shape of its argument; an entry that is a real
    number is mapped into the closed interval from 0 to 1, [+inf] to 1,
    [-inf] to 0 and a NaN to a NaN. *)
Theorem sig_func_range (val : ndarray float64) (i j : nat) :
  (i < nrows val)%nat -> (j < ncols val)%nat ->
  shape (sig_func val) = shape val /\
  sig_func_entry (item val i j) (item (sig_func val) i j).
Proof.
  intros Hi Hj. rewrite sig_func_sigmoid. split; [done|].
  rewrite item_map_items by done. apply sig_func_entry_sigmoid.
Qed.

Lemma sig_func_range_witness :
  shape (sig_func SaturationExamples.x_inf) = shape SaturationExamples.x_inf /\
  sig_func_entry (item SaturationExamples.x_inf 0 0)
    (item (sig_func SaturationExamples.x_inf) 0 0).
Proof. apply (sig_func_range SaturationExamples.x_inf 0 0); simpl; lia. Defined.

Lemma sigmoid'_entry (v : float64) : sig_func_g_entry v (Spec.sigmoid' v).
Proof.
  unfold Spec.sigmoid'. destruct sigmoid_special as (Hp & Hn & Hnan).
  destruct v as [r| | |]; simpl.
  - pose proof (sigmoid_unit r) as Hs.
    destruct (Spec.sigmoid (Fin r)) as [t| | |]; try done.
    simpl in Hs. unfold fsub, fneg, fadd, fmul. simpl.
    pose proof (Rle_0_sqr (t - 1 / 2)) as Hsq. unfold Rsqr in Hsq.
    split; nra.
  - rewrite ?Hp. unfold fsub, fneg, fadd, fmul. simpl. lra.
  - rewrite ?Hn. unfold fsub, fneg, fadd, fmul. simpl. lra.
  - by rewrite ?Hnan.
Qed.

(** [sig_func_g] never raises and keeps the shape of its argument; its
    entry is a NaN for a NaN, and otherwise a real number of the closed
    interval from 0 to 1/4. *)
Theorem sig_func_g_range (val : ndarray float64) (i j : nat) :
  (i < nrows val)%nat -> (j < ncols val)%nat ->
  exists r,
    sig_func_g val = Ok r /\
    shape r = shape val /\
    sig_func_g_entry (item val i j) (item r i j).
Proof.
  intros Hi Hj. exists (map_items Spec.sigmoid' val).
  split; [apply sig_func_g_sigmoid'|]. split; [done|].
  rewrite item_map_items by done. apply sigmoid'_entry.
Qed.

Lemma sig_func_g_range_witness :
  exists r,
    sig_func_g SaturationExamples.x_inf = Ok r /\
    shape r = shape SaturationExamples.x_inf /\
    sig_func_g_entry (item SaturationExamples.x_inf 0 0) (item r 0 0).
Proof. apply (sig_func_g_range SaturationExamples.x_inf 0 0); simpl; lia. Defined.

(** ** The threshold of [predict_zero_one] *)

Lemma sigmoid_below_half (a : R) :
  flt (Spec.sigmoid (Fin a)) (Fin (1 / 2)) = true <-> a < 0.
Proof.
  unfold Spec.sigmoid, fneg, fexp, fadd, fdiv.
  pose proof (exp_pos (- a)) as Hexp.
  destruct (Req_dec_T (1 + exp (- a)) 0) as [Heq|_]; [lra|].
  rewrite flt_finite.
  assert (1 / (1 + exp (- a)) * (1 + exp (- a)) = 1) as Hinv by (field; lra).
  split.
  - intros Hlt. assert (1 < exp (- a)) as He by nra.
    rewrite <- exp_0 in He. apply exp_lt_inv in He. lra.
  - intros Ha. assert (exp 0 < exp (- a)) as He by (apply exp_increasing; lra).
    rewrite exp_0 in He. nra.
Qed.

Lemma sigmoid_below_half_negative (v : float64) :
  flt (Spec.sigmoid v) (Fin (1 / 2)) = true -> flt v (Fin 0) = true.
Proof.
  destruct sigmoid_special as (Hp & Hn & Hnan).
  destruct v as [r| | |].
  - intros Hlt. apply sigmoid_below_half in Hlt. by apply flt_finite.
  - rewrite Hp. intros Hlt. apply flt_finite in Hlt. lra.
  - done.
  - by rewrite Hnan.
Qed.

(** For a network with at least one weight matrix, whose weights chain
    from the input, an entry of [predict_zero_one] is 0 only when the
    weighted sum that enters the output unit, the entry of
    [h_{L-1} × w_{L-1}], is negative: a weighted sum that is zero,
    positive or a NaN gives 1. *)
Theorem predict_zero_one_nonnegative (s : state) (input_matrix : loc)
    (x : ndarray float64) (ws : list (ndarray float64)) :
  heap s !! input_matrix = Some x ->
  points_to (heap s) (weights (self s)) ws ->
  compatible (ncols x) ws ->
  (1 <= length ws)%nat ->
  exists z s',
    predict_zero_one input_matrix s = Ok (z, s') /\
    shape z = (nrows x, output_units (ncols x) ws) /\
    forall i j, (i < nrows x)%nat -> (j < output_units (ncols x) ws)%nat ->
      (item z i j = 0%Z -> flt (item (Spec.a ws x (length ws)) i j) (Fin 0) = true) /\
      (flt (item (Spec.a ws x (length ws)) i j) (Fin 0) = false -> item z i j = 1%Z).
Proof.
  intros Hx Hws Hc HL.
  destruct (predict_spec_run s input_matrix x ws Hx Hws Hc) as [Hrun Hout].
  eexists _, _. split; [by apply (predict_zero_one_run _ _ _ _ _ Hrun Hout)|].
  split.
  { unfold shape, np_where_lt, Spec.predict. simpl.
    by rewrite nrows_h, output_units_h. }
  intros i j Hi Hj. rewrite <- output_units_h in Hj.
  assert (Spec.predict ws x = map_items Spec.sigmoid (Spec.a ws x (length ws)))
    as Hpre.
  { unfold Spec.predict, Spec.a.
    by replace (length ws) with (S (length ws - 1)) at 1 by lia. }
  assert (i < nrows (Spec.a ws x (length ws)))%nat as Hi'.
  { change (i < nrows (Spec.h ws x (length ws - 1)))%nat. by rewrite nrows_h. }
  assert (j < ncols (Spec.a ws x (length ws)))%nat as Hj'.
  { change (Spec.h ws x (length ws)) with (Spec.predict ws x) in Hj.
    by rewrite Hpre in Hj. }
  unfold np_where_lt. rewrite item_map_items.
  2:{ unfold Spec.predict. by rewrite nrows_h. }
  2:{ done. }
  rewrite Hpre, item_map_items by done.
  pose proof (sigmoid_below_half_negative (item (Spec.a ws x (length ws)) i j))
    as Hneg.
  destruct (flt (Spec.sigmoid (item (Spec.a ws x (length ws)) i j)) (Fin (1 / 2))).
  - rewrite Hneg by done. split; done.
  - split; done.
Qed.

Lemma predict_zero_one_nonnegative_witness :
  exists z s',
    predict_zero_one 1 Examples.net1 = Ok (z, s') /\
    shape z = (nrows Examples.x1, output_units (ncols Examples.x1) [Examples.w1]) /\
    forall i j, (i < nrows Examples.x1)%nat ->
      (j < output_units (ncols Examples.x1) [Examples.w1])%nat ->
      (item z i j = 0%Z ->
       flt (item (Spec.a [Examples.w1] Examples.x1 1) i j) (Fin 0) = true) /\
      (flt (item (Spec.a [Examples.w1] Examples.x1 1) i j) (Fin 0) = false ->
       item z i j = 1%Z).
Proof.
  apply (predict_zero_one_nonnegative Examples.net1 1 Examples.x1 [Examples.w1]).
  - reflexivity.
  - repeat constructor.
  - simpl. split; reflexivity.
  - simpl. lia.
Defined.

(** Whatever the network, [predict_zero_one] returns an array of the
    shape of the array [predict] returns; an entry is 0 exactly when the
    entry of [predict] compares below 0.5, so that a NaN and [+inf]
    give 1 and [-inf] gives 0. *)
Theorem predict_zero_one_special (s s' : state) (input_matrix p : loc)
    (out : ndarray float64) (i j : nat) :
  predict input_matrix s = Ok (p, s') ->
  heap s' !! p = Some out ->
  (i < nrows out)%nat -> (j < ncols out)%nat ->
  exists z,
    predict_zero_one input_matrix s = Ok (z, s') /\
    shape z = shape out /\
    (item z i j = 0%Z <-> flt (item out i j) (Fin (1 / 2)) = true) /\
    (item z i j = 0%Z \/ item z i j = 1%Z) /\
    zero_one_special (item out i j) (item z i j).
Proof.
  intros Hrun Hout Hi Hj. eexists.
  split; [by apply (predict_zero_one_run _ _ _ _ _ Hrun Hout)|].
  split; [done|]. unfold np_where_lt. rewrite item_map_items by done.
  destruct (item out i j) as [r| | |]; simpl;
    try (unfold flt; repeat split; done || (by right) || (by left)).
  destruct (flt (Fin r) (Fin (1 / 2))); repeat split; done || (by right) || (by left).
Qed.

Lemma predict_zero_one_special_witness :
  exists z,
    predict_zero_one 0 SpecialExamples.net0_nan
    = Ok (z, mk_state (mk_network [] [0%nat]) (heap SpecialExamples.net0_nan)) /\
    shape z = shape SpecialExamples.x_nan /\
    (item z 0 0 = 0%Z <-> flt (item SpecialExamples.x_nan 0 0) (Fin (1 / 2)) = true) /\
    (item z 0 0 = 0%Z \/ item z 0 0 = 1%Z) /\
    zero_one_special (item SpecialExamples.x_nan 0 0) (item z 0 0).
Proof.
  apply (predict_zero_one_special SpecialExamples.net0_nan _ 0 0
           SpecialExamples.x_nan 0 0).
  - reflexivity.
  - reflexivity.
  - simpl. lia.
  - simpl. lia.
Defined.

(** ** Random construction *)

Section RandomNetworks.

Variable rng : Type.
Variable random_sample : rng -> R * rng.

Hypothesis Hdraw : draws_unit random_sample.

Lemma random_samples_unit (n : nat) (g : rng) :
  Forall (fun u => 0 <= u < 1) (random_samples rng random_sample n g).1.
Proof using Hdraw.
  revert g. induction n as [|n IH]; intros g; simpl; [constructor|].
  pose proof (Hdraw g) as Hu. destruct (random_sample g) as [u g1].
  specialize (IH g1).
  destruct (random_samples rng random_sample n g1) as [us g2].
  simpl in *. by constructor.
Qed.

Lemma epsilon_pos (n_in n_out : Z) : (0 < n_in + n_out)%Z -> 0 < epsilon n_in n_out.
Proof.
  intros Hsum. unfold epsilon. apply Rdiv_lt_0_compat.
  - apply sqrt_lt_R0. lra.
  - apply sqrt_lt_R0. by apply (IZR_lt 0).
Qed.

Lemma uniform_positive (n_in n_out : Z) (g : rng) :
  (0 < n_in)%Z -> (0 < n_out)%Z ->
  exists w g',
    uniform rng random_sample n_in n_out g = Ok (w, g') /\
    shape w = (Z.to_nat n_in, Z.to_nat n_out) /\
    all_items (within (epsilon n_in n_out)) w.
Proof using Hdraw.
  intros Hin Hout. unfold uniform.
  destruct (Z.ltb_spec (n_in + n_out) 0) as [?|_]; [lia|].
  destruct (Z.eqb_spec (n_in + n_out) 0) as [?|_]; [lia|].
  unfold np_random_uniform.
  destruct (Z.ltb_spec n_in 0) as [?|_]; [lia|].
  destruct (Z.ltb_spec n_out 0) as [?|_]; [lia|]. simpl.
  pose proof (random_samples_unit (Z.to_nat n_in * Z.to_nat n_out) g) as Hus.
  destruct (random_samples rng random_sample _ g) as [us g'].
  eexists _, _. split; [done|]. split; [done|].
  apply all_items_tabulate. intros i j _ _. simpl in Hus.
  fold (epsilon n_in n_out).
  pose proof (epsilon_pos n_in n_out ltac:(lia)) as Heps.
  assert (0 <= nth (i * Z.to_nat n_out + j) us 0 < 1) as Hu.
  { destruct (decide (i * Z.to_nat n_out + j < length us)%nat) as [Hlt|Hge].
    - rewrite Forall_forall in Hus. apply Hus, list_elem_of_In, nth_In. done.
    - rewrite nth_overflow by lia. lra. }
  simpl. split; nra.
Qed.

Lemma uniform_all_positive (layer_units : list Z) :
  forall (n : Z) (g : rng) (h : store),
    (0 < n)%Z -> Forall (fun k => (0 < k)%Z) layer_units ->
    exists ws g',
      uniform_all rng random_sample (zip (n :: layer_units) layer_units) g h
      = Ok (seq (length h) (length layer_units), h ++ ws, g') /\
      initialised n layer_units ws.
Proof using Hdraw.
  induction layer_units as [|n' layer_units IH]; intros n g h Hn Hpos.
  - exists [], g. simpl. by rewrite app_nil_r.
  - apply Forall_cons in Hpos as [Hn' Hpos].
    destruct (uniform_positive n n' g Hn Hn') as (w & g1 & Hw & Hs & Hitems).
    destruct (IH n' g1 (h ++ [w]) Hn' Hpos) as (ws & g2 & Hrest & Hinit).
    exists (w :: ws), g2. split; [|done].
    change (zip (n :: n' :: layer_units) (n' :: layer_units))
      with ((n, n') :: zip (n' :: layer_units) layer_units).
    cbn [uniform_all]. rewrite Hw, Hrest. rewrite length_app. simpl.
    rewrite <- (assoc_L (++)). simpl.
    by replace (length h + 1)%nat with (S (length h)) by lia.
Qed.

End RandomNetworks.

Lemma initialised_length (n : Z) (layer_units : list Z) (ws : list (ndarray float64)) :
  initialised n layer_units ws -> length ws = length layer_units.
Proof.
  revert n ws. induction layer_units as [|n' l IH]; intros n [|w ws] Hinit; try done.
  destruct Hinit as (_ & _ & Hinit). simpl. f_equal. by eapply IH.
Qed.

Lemma initialised_compatible (n : Z) (layer_units : list Z)
    (ws : list (ndarray float64)) :
  initialised n layer_units ws -> compatible (Z.to_nat n) ws.
Proof.
  revert n ws. induction layer_units as [|n' l IH]; intros n [|w ws] Hinit; try done.
  destruct Hinit as (Hs & _ & Hinit). injection Hs as Hr Hc.
  simpl. split; [done|]. rewrite Hc. by apply IH.
Qed.

Lemma initialised_real_valued (n : Z) (layer_units : list Z)
    (ws : list (ndarray float64)) :
  initialised n layer_units ws -> Forall real_valued ws.
Proof.
  revert n ws. induction layer_units as [|n' l IH]; intros n [|w ws] Hinit; try done.
  destruct Hinit as (_ & Hitems & Hinit). constructor; [|by eapply IH].
  eapply all_items_impl; [|exact Hitems]. by intros [r| | |].
Qed.

Lemma initialised_last (n : Z) (layer_units : list Z)
    (ws : list (ndarray float64)) :
  initialised n layer_units ws ->
  match last layer_units, last ws with
  | Some nl, Some wl => ncols wl = Z.to_nat nl
  | None, None => True
  | _, _ => False
  end.
Proof.
  revert n ws. induction layer_units as [|n' l IH]; intros n [|w ws] Hinit; try done.
  destruct Hinit as (Hs & _ & Hinit). injection Hs as Hr Hc.
  specialize (IH n' ws Hinit).
  destruct l as [|n'' l]; destruct ws as [|w' ws]; try done.
Qed.

Lemma initialised_output_units (n : Z) (layer_units : list Z)
    (ws : list (ndarray float64)) :
  initialised n layer_units ws ->
  output_units (Z.to_nat n) ws = Z.to_nat (default n (last layer_units)).
Proof.
  intros Hinit. apply initialised_last in Hinit. unfold output_units.
  destruct (last layer_units), (last ws); simpl; done.
Qed.

(** Given a first layer size and further ones, all positive, and a
    generator that draws from [[0, 1)], [random] returns a network with
    one new weight matrix per pair of adjacent sizes: the matrix between
    layers of [n_in] and [n_out] units has the shape [(n_in, n_out)] and
    its entries in [[-e, e)] for [e = sqrt 6 / sqrt (n_in + n_out)]; the
    matrices chain, and the arrays that existed are as they were. *)
Theorem random_network (rng : Type) (random_sample : rng -> R * rng)
    (n : Z) (layer_units : list Z) (g : rng) (h : store) :
  draws_unit random_sample ->
  (0 < n)%Z ->
  Forall (fun k => (0 < k)%Z) layer_units ->
  exists ws g',
    random rng random_sample (n :: layer_units) g h
    = Ok (mk_state (init (seq (length h) (length layer_units))) (h ++ ws), g') /\
    length ws = length layer_units /\
    initialised n layer_units ws /\
    compatible (Z.to_nat n) ws.
Proof.
  intros Hdraw Hn Hpos.
  destruct (uniform_all_positive rng random_sample Hdraw layer_units n g h Hn Hpos)
    as (ws & g' & Hrun & Hinit).
  exists ws, g'. unfold random.
  change (drop 1 (n :: layer_units)) with layer_units. rewrite Hrun.
  split; [done|]. split; [by eapply initialised_length|].
  split; [done|]. by eapply initialised_compatible.
Qed.

Lemma zeros_draws_unit : draws_unit Examples.zeros.
Proof. intros g. simpl. lra. Qed.

Lemma random_network_witness :
  exists ws g',
    random unit Examples.zeros [2%Z; 3%Z; 1%Z] tt MoreExamples.batch_only
    = Ok (mk_state (init (seq 1 2)) (MoreExamples.batch_only ++ ws), g') /\
    length ws = 2%nat /\
    initialised 2 [3%Z; 1%Z] ws /\
    compatible (Z.to_nat 2) ws.
Proof.
  apply (random_network unit Examples.zeros 2 [3%Z; 1%Z] tt MoreExamples.batch_only).
  - apply zeros_draws_unit.
  - lia.
  - repeat constructor.
Defined.

(** A network that [random] builds for at least two positive layer
    sizes accepts every batch with as many columns as the first layer
    has units: [predict] raises nothing and returns an array of shape
    [(N, n_L)] whose entries are NaN or lie in the closed interval from
    0 to 1. *)
Theorem random_then_predict (rng : Type) (random_sample : rng -> R * rng)
    (n : Z) (layer_units : list Z) (g : rng) (h : store)
    (input_matrix : loc) (x : ndarray float64) :
  draws_unit random_sample ->
  (0 < n)%Z ->
  Forall (fun k => (0 < k)%Z) layer_units ->
  (1 <= length layer_units)%nat ->
  h !! input_matrix = Some x ->
  ncols x = Z.to_nat n ->
  exists s1 g' p s2 out,
    random rng random_sample (n :: layer_units) g h = Ok (s1, g') /\
    predict input_matrix s1 = Ok (p, s2) /\
    heap s2 !! p = Some out /\
    shape out = (nrows x, Z.to_nat (default n (last layer_units))) /\
    all_items unit_or_nan out.
Proof.
  intros Hdraw Hn Hpos HL Hx Hcols.
  destruct (uniform_all_positive rng random_sample Hdraw layer_units n g h Hn Hpos)
    as (ws & g' & Hrun & Hinit).
  pose proof (initialised_length _ _ _ Hinit) as Hlen.
  pose proof (initialised_compatible _ _ _ Hinit) as Hc.
  rewrite <- Hcols in Hc.
  set (s1 := mk_state (init (seq (length h) (length layer_units))) (h ++ ws)).
  assert (heap s1 !! input_matrix = Some x) as Hx1 by by apply lookup_app_l_Some.
  assert (points_to (heap s1) (weights (self s1)) ws) as Hws.
  { simpl. rewrite <- Hlen. apply points_to_seq. }
  destruct (predict_spec_run s1 input_matrix x ws Hx1 Hws Hc) as [Hp Hout].
  eexists s1, g', _, _, _. split; [|split; [exact Hp|split; [exact Hout|split]]].
  - unfold random. change (drop 1 (n :: layer_units)) with layer_units.
    by rewrite Hrun.
  - unfold shape, Spec.predict. rewrite nrows_h, output_units_h, Hcols.
    by rewrite (initialised_output_units _ _ _ Hinit).
  - unfold Spec.predict. replace (length ws) with (S (length ws - 1)) by lia.
    change (Spec.h ws x (S (length ws - 1)))
      with (map_items Spec.sigmoid
              (Spec.matmul (Spec.h ws x (length ws - 1))
                 (ws !!! (length ws - 1)%nat))).
    apply all_items_tabulate. intros i j _ _. apply sigmoid_range.
Qed.

Lemma random_then_predict_witness :
  exists s1 g' p s2 out,
    random unit Examples.zeros [1%Z; 3%Z; 2%Z] tt MoreExamples.batch_only
    = Ok (s1, g') /\
    predict 0 s1 = Ok (p, s2) /\
    heap s2 !! p = Some out /\
    shape out = (nrows Examples.x1, Z.to_nat (default 1%Z (last [3%Z; 2%Z]))) /\
    all_items unit_or_nan out.
Proof.
  apply (random_then_predict unit Examples.zeros 1 [3%Z; 2%Z] tt
           MoreExamples.batch_only 0 Examples.x1).
  - apply zeros_draws_unit.
  - lia.
  - repeat constructor.
  - simpl. lia.
  - reflexivity.
  - reflexivity.
Defined.

(** When the first two layer sizes sum to zero, as in [random(0, 0)],
    [random] raises [ZeroDivisionError] (the division by the square root
    of the sum); when their sum or one of them is negative it raises
    [ValueError]. *)
Theorem random_first_pair_error (rng : Type) (random_sample : rng -> R * rng)
    (a b : Z) (layer_units : list Z) (g : rng) (h : store) :
  (a + b <= 0)%Z \/ (a < 0)%Z \/ (b < 0)%Z ->
  random rng random_sample (a :: b :: layer_units) g h
  = Raise (first_pair_error a b).
Proof.
  intros Hab. unfold random, first_pair_error.
  change (drop 1 (a :: b :: layer_units)) with (b :: layer_units).
  change (zip (a :: b :: layer_units) (b :: layer_units))
    with ((a, b) :: zip (b :: layer_units) layer_units).
  cbn [uniform_all]. unfold uniform.
  destruct (Z.ltb_spec (a + b) 0) as [Hneg|Hnn].
  - by destruct (Z.eqb_spec (a + b) 0) as [?|_]; [lia|].
  - destruct (Z.eqb_spec (a + b) 0) as [Hz|Hnz]; [done|].
    unfold np_random_uniform.
    destruct (Z.ltb_spec a 0) as [?|?]; [done|].
    destruct (Z.ltb_spec b 0) as [?|?]; [done|]. lia.
Qed.

Lemma random_first_pair_error_witness :
  random unit Examples.zeros [0%Z; 0%Z] tt [] = Raise (first_pair_error 0 0).
Proof.
  apply (random_first_pair_error unit Examples.zeros 0 0 [] tt []). lia.
Defined.

(** ** Shared weight matrices *)

(** When the two weight matrices of a network are one and the same
    array, one iteration of [train] subtracts both gradients from it, one
    after the other. *)
Theorem train_shared_weights (s : state) (input_matrix output_matrix l : loc)
    (w : ndarray float64) (learning_rate : float64) :
  ready input_matrix output_matrix s ->
  weights (self s) = [l; l] ->
  heap s !! l = Some w ->
  exists g0 g1 s',
    gradients_of input_matrix output_matrix s = [g0; g1] /\
    train input_matrix output_matrix (Some 1%Z) (Some learning_rate) s
    = Ok (tt, s') /\
    heap s' !! l
    = Some (Spec.minus (Spec.minus w (scale learning_rate g0))
              (scale learning_rate g1)).
Proof.
  intros Hs Hw Hl.
  pose proof (train_run s input_matrix output_matrix (Some 1%Z)
                (Some learning_rate) Hs) as Hrun.
  simpl in Hrun.
  assert (length (weights_of s) = 2%nat) as Hlen.
  { unfold weights_of. by rewrite Hw. }
  eexists _, _, _. split; [|split; [exact Hrun|]].
  - unfold gradients_of, Spec.gradients. by rewrite Hlen.
  - unfold training_step. simpl heap. unfold descend. rewrite Hw. simpl.
    unfold descend_one. rewrite !list_lookup_alter_eq.
    rewrite (lookup_app_l_Some _ _ _ _ Hl). simpl. do 3 f_equal.
    + unfold gradients_of, Spec.gradients, weights_of. by rewrite Hw.
    + unfold gradients_of, Spec.gradients, weights_of. by rewrite Hw.
Qed.

Lemma net_shared_ready : ready 1 2 SharedExamples.net_shared.
Proof.
  exists Examples.x1, Examples.y1, [Examples.w1; Examples.w1].
  repeat split; try reflexivity; try (simpl; lia). repeat constructor.
Qed.

Lemma train_shared_weights_witness :
  exists g0 g1 s',
    gradients_of 1 2 SharedExamples.net_shared = [g0; g1] /\
    train 1 2 (Some 1%Z) (Some (Fin (1 / 2))) SharedExamples.net_shared
    = Ok (tt, s') /\
    heap s' !! 0%nat
    = Some (Spec.minus (Spec.minus Examples.w1 (scale (Fin (1 / 2)) g0))
              (scale (Fin (1 / 2)) g1)).
Proof.
  apply (train_shared_weights SharedExamples.net_shared 1 2 0
           Examples.w1 (Fin (1 / 2))).
  - apply net_shared_ready.
  - reflexivity.
  - reflexivity.
Defined.

(** ** Training in two runs *)

Lemma for_each_app {A} (l1 l2 : list A) (body : A -> M unit) (s : state) :
  for_each (l1 ++ l2) body s
  = bind (for_each l1 body) (fun _ => for_each l2 body) s.
Proof.
  revert s. induction l1 as [|a l1 IH]; intros s; [reflexivity|].
  simpl. unfold bind. destruct (body a s) as [[[] s1]|e]; [|done].
  rewrite IH. reflexivity.
Qed.

Lemma for_each_constant {A B} (l1 : list A) (l2 : list B) (body : M unit) :
  length l1 = length l2 ->
  forall s, for_each l1 (fun _ => body) s = for_each l2 (fun _ => body) s.
Proof.
  revert l2. induction l1 as [|a l1 IH]; intros [|b l2] Hlen s; try done.
  simpl. unfold bind. destruct (body s) as [[[] s1]|e]; [|done].
  apply IH. simpl in Hlen. lia.
Qed.

(** Training for [n + m] iterations is training for [n] iterations and
    then for [m] more on the state that is left, also when an iteration
    raises. *)
Theorem train_iterations_add (s : state) (input_matrix output_matrix : loc)
    (n m : Z) (learning_rate : option float64) :
  (0 <= n)%Z -> (0 <= m)%Z ->
  train input_matrix output_matrix (Some (n + m)%Z) learning_rate s
  = bind (train input_matrix output_matrix (Some n) learning_rate)
      (fun _ => train input_matrix output_matrix (Some m) learning_rate) s.
Proof.
  intros Hn Hm. unfold train. simpl default.
  rewrite <- for_each_app. apply for_each_constant.
  unfold py_range. rewrite length_app, !length_fmap, !length_seq. lia.
Qed.

Lemma train_iterations_add_witness :
  train 1 2 (Some (2 + 3)%Z) None Examples.net1
  = bind (train 1 2 (Some 2%Z) None) (fun _ => train 1 2 (Some 3%Z) None)
      Examples.net1.
Proof.
  apply (train_iterations_add Examples.net1 1 2 2 3 None); lia.
Defined.
